(** * Prompt builder: document model, output compiler, XML serializer

    A shallow embedding of the single-file Vue component of the prompt
    builder (the variant with save/open, debounced output and drag
    reordering), and of the earlier variant whose output is a plain computed
    property.  Reactive [ref]s become fields of a state record, handlers
    become state transformers, the debounce timer runs on a virtual clock and
    the browser's [DOMParser] is modelled for the element / text / CDATA
    fragment of XML 1.0, its answer to every other text being a parameter of
    the import.

    Strings are sequences of one-byte code units (the Latin-1 range of a
    JavaScript string). *)

From Stdlib Require Import String Ascii List Bool Arith NArith Lia.
From Stdlib Require Import DecimalString DecimalPos DecimalNat Permutation.
Import ListNotations.
Open Scope string_scope.
Open Scope nat_scope.
Open Scope list_scope.

(** String concatenation, JavaScript's [+] on strings. *)
Infix "+++" := String.append (at level 60, right associativity).

(* ------------------------------------------------------------------ *)
(** ** JavaScript primitives used by the component *)

Module JS.

(** ['\n'] *)
Definition LF : string := String "010"%char EmptyString.

(** The white space that [String.prototype.trim] strips, restricted to
    one-byte code units: TAB, LF, VT, FF, CR, SPACE and NBSP. *)
Definition is_white_space (c : ascii) : bool :=
  let n := nat_of_ascii c in
  ((9 <=? n) && (n <=? 13)) || (n =? 32) || (n =? 160).

Fixpoint trimStart (s : string) : string :=
  match s with
  | EmptyString => EmptyString
  | String c s' => if is_white_space c then trimStart s' else s
  end.

Fixpoint trimEnd (s : string) : string :=
  match s with
  | EmptyString => EmptyString
  | String c s' =>
      match trimEnd s' with
      | EmptyString => if is_white_space c then EmptyString else String c EmptyString
      | r => String c r
      end
  end.

Definition trim (s : string) : string := trimEnd (trimStart s).

(** Truthiness of a [string | null]: [null] and ['']  are falsy. *)
Definition truthy (v : option string) : bool :=
  match v with
  | Some s => negb (String.eqb s EmptyString)
  | None => false
  end.

(** [v === s] for [v : string | null]. *)
Definition strict_eq (v : option string) (s : string) : bool :=
  match v with
  | Some x => String.eqb x s
  | None => false
  end.

(** [s || d] on strings. *)
Definition or_else (s d : string) : string :=
  if String.eqb s EmptyString then d else s.

(** [Number.prototype.toString()] on a non-negative integer. *)
Definition N_toString (n : N) : string := NilZero.string_of_uint (N.to_uint n).
Definition nat_toString (n : nat) : string := NilZero.string_of_uint (Nat.to_uint n).

Section Arrays.
Context {A : Type}.

(** [Array.prototype.findIndex]; [None] stands for [-1]. *)
Fixpoint findIndex (p : A -> bool) (l : list A) : option nat :=
  match l with
  | [] => None
  | x :: l' => if p x then Some 0 else option_map S (findIndex p l')
  end.

(** [arr.splice(start, deleteCount, ...items)] for non-negative
    arguments: the removed elements and the array afterwards. *)
Definition splice (start deleteCount : nat) (items l : list A) : list A * list A :=
  (firstn deleteCount (skipn start l),
   firstn start l ++ items ++ skipn deleteCount (skipn start l)).

(** [arr[i] = f(arr[i])] for an index inside the array. *)
Fixpoint update_at (i : nat) (f : A -> A) (l : list A) : list A :=
  match l, i with
  | [], _ => []
  | x :: l', 0 => f x :: l'
  | x :: l', S j => x :: update_at j f l'
  end.
End Arrays.

End JS.

(* ------------------------------------------------------------------ *)
(** ** Data model *)

Record Attachment := mkAttachment {
  id : string;
  name : string;
  content : string }.

(** What [Date.now()] and [Math.random().toString(36)] return at one call
    site. *)
Record Env := mkEnv {
  now_ms : N;
  random36 : string }.

(** [Date.now().toString() + Math.random().toString(36).substr(2, 5)] *)
Definition newId (e : Env) : string :=
  JS.N_toString (now_ms e) +++ substring 2 5 (random36 e).

(** [Date.now().toString()] *)
Definition clipboardId (e : Env) : string := JS.N_toString (now_ms e).

(** The refs of the component that hold the document and the editing
    buffers. *)
Record State := mkState {
  promptText : string;
  attachments : list Attachment;
  selectedAttachmentId : option string;
  attachmentName : string;
  attachmentContent : string;
  editingAttachmentId : option string;
  editingAttachmentName : string;
  draggedItem : option string;
  draggedOverItem : option string }.

Definition initialState : State :=
  mkState EmptyString [] None EmptyString EmptyString None EmptyString None None.

Definition set_promptText (v : string) (st : State) : State :=
  mkState v (attachments st) (selectedAttachmentId st) (attachmentName st)
    (attachmentContent st) (editingAttachmentId st) (editingAttachmentName st)
    (draggedItem st) (draggedOverItem st).

Definition set_attachments (v : list Attachment) (st : State) : State :=
  mkState (promptText st) v (selectedAttachmentId st) (attachmentName st)
    (attachmentContent st) (editingAttachmentId st) (editingAttachmentName st)
    (draggedItem st) (draggedOverItem st).

Definition set_selectedAttachmentId (v : option string) (st : State) : State :=
  mkState (promptText st) (attachments st) v (attachmentName st)
    (attachmentContent st) (editingAttachmentId st) (editingAttachmentName st)
    (draggedItem st) (draggedOverItem st).

Definition set_attachmentName (v : string) (st : State) : State :=
  mkState (promptText st) (attachments st) (selectedAttachmentId st) v
    (attachmentContent st) (editingAttachmentId st) (editingAttachmentName st)
    (draggedItem st) (draggedOverItem st).

Definition set_attachmentContent (v : string) (st : State) : State :=
  mkState (promptText st) (attachments st) (selectedAttachmentId st)
    (attachmentName st) v (editingAttachmentId st) (editingAttachmentName st)
    (draggedItem st) (draggedOverItem st).

Definition set_editingAttachmentId (v : option string) (st : State) : State :=
  mkState (promptText st) (attachments st) (selectedAttachmentId st)
    (attachmentName st) (attachmentContent st) v (editingAttachmentName st)
    (draggedItem st) (draggedOverItem st).

Definition set_editingAttachmentName (v : string) (st : State) : State :=
  mkState (promptText st) (attachments st) (selectedAttachmentId st)
    (attachmentName st) (attachmentContent st) (editingAttachmentId st) v
    (draggedItem st) (draggedOverItem st).

Definition set_draggedItem (v : option string) (st : State) : State :=
  mkState (promptText st) (attachments st) (selectedAttachmentId st)
    (attachmentName st) (attachmentContent st) (editingAttachmentId st)
    (editingAttachmentName st) v (draggedOverItem st).

Definition set_draggedOverItem (v : option string) (st : State) : State :=
  mkState (promptText st) (attachments st) (selectedAttachmentId st)
    (attachmentName st) (attachmentContent st) (editingAttachmentId st)
    (editingAttachmentName st) (draggedItem st) v.

Definition has_id (i : string) (a : Attachment) : bool := String.eqb (id a) i.

Definition set_name (v : string) (a : Attachment) : Attachment :=
  mkAttachment (id a) v (content a).

Definition set_content (v : string) (a : Attachment) : Attachment :=
  mkAttachment (id a) (name a) v.

(* ------------------------------------------------------------------ *)
(** ** Output compiler *)

(** The template literal appended for one attachment. *)
Definition section_of (a : Attachment) : string :=
  "### " +++ name a +++ JS.LF +++ "```" +++ JS.LF +++ content a +++ JS.LF
    +++ "```" +++ JS.LF +++ JS.LF.

(** Body of [outputMarkdown] and of the callback of
    [updateDebouncedOutput]: [output] starts as the prompt and two newlines
    and grows by one section per attachment. *)
Definition compile (prompt : string) (atts : list Attachment) : string :=
  let output := prompt +++ JS.LF +++ JS.LF in
  if 0 <? List.length atts
  then fold_left (fun output a => output +++ section_of a) atts output
  else output.

(* ------------------------------------------------------------------ *)
(** ** Document model: the handlers of the component *)

(** [attachments.value.push(a)] *)
Definition push (a : Attachment) (st : State) : State :=
  set_attachments (attachments st ++ [a]) st.

Definition selectAttachment (i : string) (st : State) : State :=
  match find (has_id i) (attachments st) with
  | Some attachment =>
      set_attachmentContent (content attachment)
        (set_selectedAttachmentId (Some i) st)
  | None => st
  end.

Definition startEditingName (i n : string) (st : State) : State :=
  set_editingAttachmentName n
    (set_editingAttachmentId (Some i) (selectAttachment i st)).

Definition saveAttachmentName (st : State) : State :=
  if JS.truthy (editingAttachmentId st) then
    let index :=
      JS.findIndex (fun a => JS.strict_eq (editingAttachmentId st) (id a))
        (attachments st) in
    let st1 :=
      match index with
      | Some i =>
          if negb (String.eqb (JS.trim (editingAttachmentName st)) EmptyString)
          then set_attachments
                 (JS.update_at i (set_name (JS.trim (editingAttachmentName st)))
                    (attachments st)) st
          else st
      | None => st
      end in
    set_editingAttachmentId None st1
  else st.

Definition updateAttachmentContent (c : string) (st : State) : State :=
  if JS.truthy (selectedAttachmentId st) then
    match JS.findIndex (fun a => JS.strict_eq (selectedAttachmentId st) (id a))
            (attachments st) with
    | Some i => set_attachments (JS.update_at i (set_content c) (attachments st)) st
    | None => st
    end
  else st.

Definition deleteAttachment (i : string) (st : State) : State :=
  let st1 := set_attachments (filter (fun a => negb (has_id i a)) (attachments st)) st in
  if JS.strict_eq (selectedAttachmentId st1) i
  then set_attachmentContent EmptyString
         (set_attachmentName EmptyString (set_selectedAttachmentId None st1))
  else st1.

(** [`Untitled_${attachments.value.length + 1}`] *)
Definition untitled (st : State) : string :=
  "Untitled_" +++ JS.nat_toString (List.length (attachments st) + 1).

Definition addEmptyAttachment (e : Env) (st : State) : State :=
  let i := newId e in
  let n := untitled st in
  selectAttachment i (push (mkAttachment i n EmptyString) st).

(** [readText] is what [navigator.clipboard.readText()] resolves to, [None]
    when the promise is rejected (the handler then only alerts). *)
Definition addFromClipboard (e : Env) (readText : option string) (st : State) : State :=
  match readText with
  | Some text =>
      if negb (String.eqb text EmptyString)
      then push (mkAttachment (clipboardId e) (untitled st) text) st
      else st
  | None => st
  end.

Record File := mkFile {
  file_name : string;
  file_size : N;
  file_text : string }.

Definition maxSize : N := 1024 * 1024.

(** One file of [handleDrop], with its [reader.onload] run to completion. *)
Definition handleDropFile (e : Env) (file : File) (st : State) : State :=
  if (maxSize <? file_size file)%N then st
  else push (mkAttachment (newId e) (file_name file)
               (JS.or_else (file_text file) EmptyString)) st.

Definition handleDrop (files : list (Env * File)) (st : State) : State :=
  fold_left (fun s ef => handleDropFile (fst ef) (snd ef) s) files st.

Definition dragStart (i : string) (st : State) : State :=
  set_draggedItem (Some i) st.

Definition dragEnd (st : State) : State :=
  set_draggedOverItem None (set_draggedItem None st).

Definition dragOver (i : string) (st : State) : State :=
  if negb (JS.strict_eq (draggedItem st) i)
  then set_draggedOverItem (Some i) st
  else st.

Definition dragLeave (st : State) : State := set_draggedOverItem None st.

(** The two [findIndex] calls and the two [splice] calls of [drop]:
    [reorder draggedId targetId] on the attachment array. *)
Definition reorder (draggedId targetId : string) (atts : list Attachment)
  : list Attachment :=
  let draggedIndex := JS.findIndex (has_id draggedId) atts in
  let dropIndex := JS.findIndex (has_id targetId) atts in
  match draggedIndex, dropIndex with
  | Some di, Some ti =>
      let '(removed, atts1) := JS.splice di 1 [] atts in
      match removed with
      | movedItem :: _ => snd (JS.splice ti 0 [movedItem] atts1)
      | [] => atts1
      end
  | _, _ => atts
  end.

Definition drop (st : State) : State :=
  let st1 :=
    if JS.truthy (draggedItem st) && JS.truthy (draggedOverItem st) then
      match draggedItem st, draggedOverItem st with
      | Some d, Some t => set_attachments (reorder d t (attachments st)) st
      | _, _ => st
      end
    else st in
  dragEnd st1.


(** The commands of the interaction surface that edit the document. *)
Inductive command :=
| SetPrompt (s : string)
| AddEmpty (e : Env)
| AddFromClipboard (e : Env) (readText : option string)
| DropFiles (files : list (Env * File))
| Select (i : string)
| StartEditingName (i n : string)
| TypeName (s : string)
| SaveName
| TypeContent (s : string)
| Delete (i : string)
| DragStart (i : string)
| DragOver (i : string)
| DragLeave
| DragEnd
| Drop.

Definition exec (c : command) (st : State) : State :=
  match c with
  | SetPrompt s => set_promptText s st
  | AddEmpty e => addEmptyAttachment e st
  | AddFromClipboard e r => addFromClipboard e r st
  | DropFiles files => handleDrop files st
  | Select i => selectAttachment i st
  | StartEditingName i n => startEditingName i n st
  | TypeName s => set_editingAttachmentName s st
  | SaveName => saveAttachmentName st
  | TypeContent s => updateAttachmentContent s (set_attachmentContent s st)
  | Delete i => deleteAttachment i st
  | DragStart i => dragStart i st
  | DragOver i => dragOver i st
  | DragLeave => dragLeave st
  | DragEnd => dragEnd st
  | Drop => drop st
  end.

Definition run (cs : list command) (st : State) : State :=
  fold_left (fun s c => exec c s) cs st.

(** The selection names an attachment of the sequence, or nothing. *)
Definition selection_valid (st : State) : Prop :=
  match selectedAttachmentId st with
  | None => True
  | Some i => In i (map id (attachments st))
  end.

(* ------------------------------------------------------------------ *)
(** ** The browser's XML parser and the DOM queries of the import

    [new DOMParser().parseFromString(text, 'text/xml')] never throws: it
    returns a document for every text.  [parse] reads the fragment of
    XML 1.0 that the export writes: the XML declaration of the export at the
    very start, elements without attributes and without a colon in their
    names, character data and CDATA sections.  For a text of this fragment
    the document is the tree that [parse] builds.  For every other text
    (attributes, comments, references, processing instructions, a document
    type declaration, and every text that is not well-formed) the document
    is whatever the browser at hand returns, [recover text]: by the DOM
    standard a text that is not well-formed gives a document whose only
    element is [parsererror], and some browsers keep beside it the elements
    read before the error. *)

Module Xml.

#[warnings="-register-all"] Inductive node :=
| Text (data : string)
| CData (data : string)
| Element (tag : string) (children : list node).

Inductive token :=
| TStart (tag : string)
| TEnd (tag : string)
| TEmpty (tag : string)
| TText (data : string)
| TCData (data : string).

Definition code (c : ascii) : nat := nat_of_ascii c.

(** [Char] of XML 1.0 among the one-byte code units. *)
Definition is_char (c : ascii) : bool :=
  (code c =? 9) || (code c =? 10) || (code c =? 13) || (32 <=? code c).

(** [S]: space, tab, line feed, carriage return. *)
Definition is_space (c : ascii) : bool :=
  (code c =? 32) || (code c =? 9) || (code c =? 10) || (code c =? 13).

Definition between (lo hi n : nat) : bool := (lo <=? n) && (n <=? hi).

(** [NameStartChar] and [NameChar], the colon of qualified names left
    out. *)
Definition is_name_start (c : ascii) : bool :=
  between 65 90 (code c) || between 97 122 (code c) || (code c =? 95)
  || between 192 214 (code c) || between 216 246 (code c)
  || between 248 255 (code c).

Definition is_name_char (c : ascii) : bool :=
  is_name_start c || between 48 57 (code c) || (code c =? 45)
  || (code c =? 46) || (code c =? 183).

Fixpoint all_chars (p : ascii -> bool) (s : string) : bool :=
  match s with
  | EmptyString => true
  | String c s' => p c && all_chars p s'
  end.

Definition CR : ascii := "013"%char.
Definition LF : ascii := "010"%char.

(** End-of-line handling (XML 1.0, 2.11): CR LF and a lone CR become LF
    before anything else is looked at. *)
Fixpoint normalize_eol (s : string) : string :=
  match s with
  | EmptyString => EmptyString
  | String c s' =>
      if Ascii.eqb c CR then
        match s' with
        | String c' s'' =>
            if Ascii.eqb c' LF then String LF (normalize_eol s'')
            else String LF (normalize_eol s')
        | EmptyString => String LF EmptyString
        end
      else String c (normalize_eol s')
  end.

(** How many of the characters just read were right square brackets
    (two stands for two or more). *)
Inductive brackets := B0 | B1 | B2.

Definition pending (b : brackets) : string :=
  match b with
  | B0 => EmptyString
  | B1 => "]"
  | B2 => "]]"
  end.

Inductive mode :=
| InText (buf : string) (b : brackets)
| AfterLt
| AfterBang (k : nat)
| InCData (buf : string) (b : brackets)
| StartName (tag : string)
| StartSpace (tag : string)
| StartSlash (tag : string)
| EndLt
| EndName (tag : string)
| EndSpace (tag : string).

Definition snoc (s : string) (c : ascii) : string := s +++ String c EmptyString.

Definition text_token (buf : string) : list token :=
  match buf with
  | EmptyString => []
  | _ => [TText buf]
  end.

Definition is_ch (x : string) (c : ascii) : bool :=
  match x with
  | String y EmptyString => Ascii.eqb c y
  | _ => false
  end.

(** One character of input: the next mode and the tokens completed by
    this character, or [None] when the text leaves the fragment. *)
Definition step (m : mode) (c : ascii) : option (mode * list token) :=
  if negb (is_char c) then None else
  match m with
  | InText buf b =>
      if is_ch "<" c then Some (AfterLt, text_token buf)
      else if is_ch "&" c then None
      else if is_ch "]" c then
        Some (InText (snoc buf c) (match b with B0 => B1 | _ => B2 end), [])
      else if is_ch ">" c then
        match b with
        | B2 => None
        | _ => Some (InText (snoc buf c) B0, [])
        end
      else Some (InText (snoc buf c) B0, [])
  | AfterLt =>
      if is_ch "!" c then Some (AfterBang 0, [])
      else if is_ch "/" c then Some (EndLt, [])
      else if is_name_start c then Some (StartName (String c EmptyString), [])
      else None
  | AfterBang k =>
      match String.get k "[CDATA[" with
      | Some x =>
          if Ascii.eqb c x then
            if k =? 6 then Some (InCData EmptyString B0, [])
            else Some (AfterBang (S k), [])
          else None
      | None => None
      end
  | InCData buf b =>
      if is_ch "]" c then
        match b with
        | B0 => Some (InCData buf B1, [])
        | B1 => Some (InCData buf B2, [])
        | B2 => Some (InCData (snoc buf c) B2, [])
        end
      else if is_ch ">" c then
        match b with
        | B2 => Some (InText EmptyString B0, [TCData buf])
        | _ => Some (InCData (snoc (buf +++ pending b) c) B0, [])
        end
      else Some (InCData (snoc (buf +++ pending b) c) B0, [])
  | StartName tag =>
      if is_ch ">" c then Some (InText EmptyString B0, [TStart tag])
      else if is_ch "/" c then Some (StartSlash tag, [])
      else if is_space c then Some (StartSpace tag, [])
      else if is_name_char c then Some (StartName (snoc tag c), [])
      else None
  | StartSpace tag =>
      if is_ch ">" c then Some (InText EmptyString B0, [TStart tag])
      else if is_ch "/" c then Some (StartSlash tag, [])
      else if is_space c then Some (StartSpace tag, [])
      else None
  | StartSlash tag =>
      if is_ch ">" c then Some (InText EmptyString B0, [TEmpty tag]) else None
  | EndLt =>
      if is_name_start c then Some (EndName (String c EmptyString), [])
      else None
  | EndName tag =>
      if is_ch ">" c then Some (InText EmptyString B0, [TEnd tag])
      else if is_space c then Some (EndSpace tag, [])
      else if is_name_char c then Some (EndName (snoc tag c), [])
      else None
  | EndSpace tag =>
      if is_ch ">" c then Some (InText EmptyString B0, [TEnd tag])
      else if is_space c then Some (EndSpace tag, [])
      else None
  end.

(** The tokens [out] in front of the tokens of the rest of the input. *)
Definition emit (out : list token) (r : option (list token)) : option (list token) :=
  match out with
  | [] => r
  | _ :: _ => option_map (app out) r
  end.

Fixpoint lex (m : mode) (s : string) : option (list token) :=
  match s with
  | EmptyString =>
      match m with
      | InText buf _ => Some (text_token buf)
      | _ => None
      end
  | String c s' =>
      match step m c with
      | Some (m', out) => emit out (lex m' s')
      | None => None
      end
  end.

(** The lexer over a first part of the input: the mode it is left in and
    the tokens completed so far. *)
Fixpoint scan (m : mode) (s : string) : option (mode * list token) :=
  match s with
  | EmptyString => Some (m, [])
  | String c s' =>
      match step m c with
      | Some (m', out) =>
          match scan m' s' with
          | Some (m'', out') => Some (m'', out ++ out')
          | None => None
          end
      | None => None
      end
  end.

(** An open element: its tag and the children read so far. *)
Definition frame : Type := string * list node.

(** Hang a finished node below the innermost open element; an element
    finished with nothing open is the root, of which there is one. *)
Definition add_node (n : node) (stack : list frame) (root : option node)
  : option (list frame * option node) :=
  match stack with
  | (tag, kids) :: rest => Some ((tag, kids ++ [n]) :: rest, root)
  | [] =>
      match n, root with
      | Element _ _, None => Some ([], Some n)
      | _, _ => None
      end
  end.

Fixpoint build (toks : list token) (stack : list frame) (root : option node)
  : option node :=
  match toks with
  | [] =>
      match stack with
      | [] => root
      | _ :: _ => None
      end
  | t :: toks' =>
      match t with
      | TStart tag =>
          match stack, root with
          | [], Some _ => None
          | _, _ => build toks' ((tag, []) :: stack) root
          end
      | TEmpty tag =>
          match add_node (Element tag []) stack root with
          | Some (stack', root') => build toks' stack' root'
          | None => None
          end
      | TEnd tag =>
          match stack with
          | (opened, kids) :: rest =>
              if String.eqb opened tag then
                match add_node (Element tag kids) rest root with
                | Some (stack', root') => build toks' stack' root'
                | None => None
                end
              else None
          | [] => None
          end
      | TText data =>
          match stack with
          | [] => if all_chars is_space data then build toks' stack root else None
          | _ :: _ =>
              match add_node (Text data) stack root with
              | Some (stack', root') => build toks' stack' root'
              | None => None
              end
          end
      | TCData data =>
          match stack with
          | [] => None
          | _ :: _ =>
              match add_node (CData data) stack root with
              | Some (stack', root') => build toks' stack' root'
              | None => None
              end
          end
      end
  end.

(** The XML declaration that the export writes. *)
Definition declaration : string :=
  "<?xml version=" +++ String "034"%char "1.0" +++ String "034"%char " encoding="
  +++ String "034"%char "UTF-8" +++ String "034"%char "?>".

(** [s] without the prefix [p], if it starts with [p]. *)
Fixpoint strip_prefix (p s : string) : option string :=
  match p, s with
  | EmptyString, _ => Some s
  | String a p', String b s' => if Ascii.eqb a b then strip_prefix p' s' else None
  | String _ _, EmptyString => None
  end.

Definition strip_declaration (s : string) : string :=
  match strip_prefix declaration s with
  | Some rest => rest
  | None => s
  end.

(** The root element of a text of the fragment. *)
Definition parse (s : string) : option node :=
  match lex (InText EmptyString B0) (strip_declaration (normalize_eol s)) with
  | Some toks => build toks [] None
  | None => None
  end.

(** The document that the DOM standard prescribes for a text that is not
    well-formed. *)
Definition parsererror : node :=
  Element "parsererror" [Text "XML Parsing Error: not well-formed"].

Definition standard_recovery (s : string) : node := parsererror.

(** The document returned by the parser, given by its root element;
    [recover] is the browser's answer to the texts outside the fragment. *)
Definition parseFromString (recover : string -> node) (s : string) : node :=
  match parse s with
  | Some root => root
  | None => recover s
  end.

(** The nodes below [n], in document order. *)
Fixpoint descendants (n : node) : list node :=
  match n with
  | Element _ kids => flat_map (fun k => k :: descendants k) kids
  | _ => []
  end.

Fixpoint textContent (n : node) : string :=
  match n with
  | Text data => data
  | CData data => data
  | Element _ kids => String.concat EmptyString (map textContent kids)
  end.

Definition is_element (tag : string) (n : node) : bool :=
  match n with
  | Element t _ => String.eqb t tag
  | _ => false
  end.

(** [element.querySelector(tag)]: the first matching descendant. *)
Definition querySelector (tag : string) (el : node) : option node :=
  find (is_element tag) (descendants el).

(** [document.querySelector(tag)]: the root element is a candidate. *)
Definition document_querySelector (tag : string) (root : node) : option node :=
  find (is_element tag) (root :: descendants root).

Definition document_querySelectorAll (tag : string) (root : node) : list node :=
  filter (is_element tag) (root :: descendants root).

End Xml.

(* ------------------------------------------------------------------ *)
(** ** Serializer *)

(** The double quote of the XML declaration. *)
Definition DQ : string := String "034"%char EmptyString.

(** The four lines written for one attachment. *)
Definition attachment_xml (a : Attachment) : string :=
  (((EmptyString
     +++ ("    <attachment>" +++ JS.LF))
     +++ ("      <name><![CDATA[" +++ name a +++ "]]></name>" +++ JS.LF))
     +++ ("      <content><![CDATA[" +++ content a +++ "]]></content>" +++ JS.LF))
     +++ ("    </attachment>" +++ JS.LF).

(** [saveToXML] up to the point where [xmlContent] is complete; the rest of
    the handler hands the text to the browser as the download
    [prompt_builder.xml]. *)
Definition saveToXML (st : State) : string :=
  let xmlContent :=
    "<?xml version=" +++ DQ +++ "1.0" +++ DQ +++ " encoding=" +++ DQ +++ "UTF-8"
      +++ DQ +++ "?>" +++ JS.LF in
  let xmlContent := xmlContent +++ ("<promptBuilder>" +++ JS.LF) in
  let xmlContent :=
    xmlContent +++ ("  <prompt><![CDATA[" +++ promptText st +++ "]]></prompt>" +++ JS.LF) in
  let xmlContent :=
    if 0 <? List.length (attachments st) then
      let xmlContent := xmlContent +++ ("  <attachments>" +++ JS.LF) in
      let xmlContent :=
        fold_left (fun xmlContent a => xmlContent +++ attachment_xml a)
          (attachments st) xmlContent in
      xmlContent +++ ("  </attachments>" +++ JS.LF)
    else xmlContent in
  xmlContent +++ "</promptBuilder>".

(** What the user is shown in an [alert]. *)
Inductive alert :=
| FileTooLarge (file : string)
| ParseFailed (err : string).

(** How a block of statements ends: normally, or by throwing, with the
    state as the statements left it. *)
Inductive completion :=
| Normal (st : State)
| Thrown (err : string) (st : State).

(** [try { body } catch (err) { alert(... + err) }] *)
Definition try_catch (body : completion) : State * list alert :=
  match body with
  | Normal st => (st, [])
  | Thrown err st => (st, [ParseFailed err])
  end.

(** The [forEach] over the attachment elements; [k] counts the ids drawn
    so far, the [k]-th of which is made from [es k]. *)
Fixpoint load_records (es : nat -> Env) (k : nat) (els : list Xml.node) (st : State)
  : State :=
  match els with
  | [] => st
  | attachmentElement :: els' =>
      match Xml.querySelector "name" attachmentElement,
            Xml.querySelector "content" attachmentElement with
      | Some nameElement, Some contentElement =>
          load_records es (S k) els'
            (push (mkAttachment (newId (es k))
                     (JS.or_else (Xml.textContent nameElement) "Untitled")
                     (JS.or_else (Xml.textContent contentElement) EmptyString)) st)
      | _, _ => load_records es k els' st
      end
  end.

(** The body of the [try] of [reader.onload].  No statement of it throws:
    the parser answers every text with a document. *)
Definition onload_body (es : nat -> Env) (recover : string -> Xml.node)
    (xmlText : string) (st : State) : completion :=
  let xmlDoc := Xml.parseFromString recover xmlText in
  let st1 :=
    match Xml.document_querySelector "prompt" xmlDoc with
    | Some promptElement =>
        set_promptText (JS.or_else (Xml.textContent promptElement) EmptyString) st
    | None => st
    end in
  let attachmentElements := Xml.document_querySelectorAll "attachment" xmlDoc in
  if 0 <? List.length attachmentElements
  then Normal (load_records es 0 attachmentElements (set_attachments [] st1))
  else Normal st1.

Definition onload (es : nat -> Env) (recover : string -> Xml.node)
    (xmlText : string) (st : State) : State * list alert :=
  try_catch (onload_body es recover xmlText st).

(** [openFromXML] with the file reader run to completion; [files] is
    [input.files]. *)
Definition openFromXML (es : nat -> Env) (recover : string -> Xml.node)
    (files : list File) (st : State) : State * list alert :=
  match files with
  | [] => (st, [])
  | file :: _ =>
      if (maxSize <? file_size file)%N
      then (st, [FileTooLarge (file_name file)])
      else onload es recover (file_text file) st
  end.

(** [deserialize(text)] loads [text] into the document at hand. *)
Definition deserialize (es : nat -> Env) (recover : string -> Xml.node)
    (text : string) (st : State) : State :=
  fst (onload es recover text st).

(** A string that a CDATA section carries verbatim: characters of XML, no
    carriage return, no ["]]>"]. *)
Fixpoint starts_with (p s : string) : bool :=
  match p, s with
  | EmptyString, _ => true
  | String a p', String b s' => Ascii.eqb a b && starts_with p' s'
  | String _ _, EmptyString => false
  end.

Fixpoint has_cdata_end (s : string) : bool :=
  match s with
  | EmptyString => false
  | String _ s' => starts_with "]]>" s || has_cdata_end s'
  end.

Definition verbatim (s : string) : bool :=
  Xml.all_chars (fun c => Xml.is_char c && negb (Ascii.eqb c Xml.CR)) s
  && negb (has_cdata_end s).

(* ------------------------------------------------------------------ *)
(** ** The document that the text of an export denotes *)

Definition ws2 : string := JS.LF +++ "  ".
Definition ws4 : string := JS.LF +++ "    ".
Definition ws6 : string := JS.LF +++ "      ".

Definition attachment_tokens (a : Attachment) : list Xml.token :=
  [Xml.TText ws4; Xml.TStart "attachment";
   Xml.TText ws6; Xml.TStart "name"; Xml.TCData (name a); Xml.TEnd "name";
   Xml.TText ws6; Xml.TStart "content"; Xml.TCData (content a); Xml.TEnd "content";
   Xml.TText ws4; Xml.TEnd "attachment"].

Definition export_tokens (st : State) : list Xml.token :=
  [Xml.TText JS.LF; Xml.TStart "promptBuilder";
   Xml.TText ws2; Xml.TStart "prompt"; Xml.TCData (promptText st); Xml.TEnd "prompt"]
  ++ match attachments st with
     | [] => []
     | _ :: _ =>
         [Xml.TText ws2; Xml.TStart "attachments"]
         ++ flat_map attachment_tokens (attachments st)
         ++ [Xml.TText ws2; Xml.TEnd "attachments"]
     end
  ++ [Xml.TText JS.LF; Xml.TEnd "promptBuilder"].

Definition attachment_element (a : Attachment) : Xml.node :=
  Xml.Element "attachment"
    [Xml.Text ws6; Xml.Element "name" [Xml.CData (name a)];
     Xml.Text ws6; Xml.Element "content" [Xml.CData (content a)];
     Xml.Text ws4].

Definition attachment_nodes (a : Attachment) : list Xml.node :=
  [Xml.Text ws4; attachment_element a].

Definition export_tree (st : State) : Xml.node :=
  Xml.Element "promptBuilder"
    ([Xml.Text ws2; Xml.Element "prompt" [Xml.CData (promptText st)]]
     ++ match attachments st with
        | [] => []
        | _ :: _ =>
            [Xml.Text ws2;
             Xml.Element "attachments"
               (flat_map attachment_nodes (attachments st) ++ [Xml.Text ws2])]
        end
     ++ [Xml.Text JS.LF]).

(** The attachments an import makes of [l], the [k]-th id drawn being the
    first one used. *)
Fixpoint fresh_copies (es : nat -> Env) (k : nat) (l : list Attachment)
  : list Attachment :=
  match l with
  | [] => []
  | a :: l' => mkAttachment (newId (es k)) (name a) (content a)
               :: fresh_copies es (S k) l'
  end.

(** A document that survives export and import: every string is carried
    verbatim by a CDATA section and no attachment name is empty. *)
Definition exportable (st : State) : Prop :=
  verbatim (promptText st) = true
  /\ Forall (fun a => verbatim (name a) = true /\ verbatim (content a) = true
                      /\ name a <> EmptyString) (attachments st).

(** A sample of what the clock and the random generator give. *)
Definition sample_env (k : nat) : Env :=
  mkEnv (1700000000000 + N.of_nat k) "0.k3x9q2m7p".

(** The (name, content) pairs of a document, in order. *)
Definition pairs (st : State) : list (string * string) :=
  map (fun a => (name a, content a)) (attachments st).

(* ------------------------------------------------------------------ *)
(** ** Debounced output and the copy command

    The runtime adds to the document the refs of the output pipeline, the
    one timeout that [debounce] keeps, a virtual clock in the unit of the
    delay, the system clipboard, and a log of the recomputations that ran.
    A timeout fires when the clock reaches the time it is due. *)

Definition delay : nat := 500.

Record Runtime := mkRuntime {
  doc : State;
  isOutputStable : bool;
  debouncedOutputMarkdown : string;
  timer : option nat;
  clock : nat;
  clipboard : option string;
  recomputes : list (nat * string) }.

Definition initialRuntime : Runtime :=
  mkRuntime initialState true EmptyString None 0 None [].

(** The function given to [debounce], run when the timeout due at [due]
    fires. *)
Definition recompute (due : nat) (rt : Runtime) : Runtime :=
  let output := compile (promptText (doc rt)) (attachments (doc rt)) in
  mkRuntime (doc rt) true output None due (clipboard rt)
    (recomputes rt ++ [(due, output)]).

(** Time passes until [t]. *)
Definition advance (t : nat) (rt : Runtime) : Runtime :=
  let rt1 :=
    match timer rt with
    | Some due => if due <=? t then recompute due rt else rt
    | None => rt
    end in
  mkRuntime (doc rt1) (isOutputStable rt1) (debouncedOutputMarkdown rt1)
    (timer rt1) (Nat.max (clock rt1) t) (clipboard rt1) (recomputes rt1).

(** The callback of [watch([promptText, attachments], ..., { deep: true })]:
    the output is unstable, and [updateDebouncedOutput()] clears the
    timeout it has and sets one that is due after the delay. *)
Definition watch_callback (rt : Runtime) : Runtime :=
  mkRuntime (doc rt) false (debouncedOutputMarkdown rt)
    (Some (clock rt + delay)) (clock rt) (clipboard rt) (recomputes rt).

(** [granted] tells whether [navigator.clipboard.writeText] resolves. *)
Definition copyToClipboard (granted : bool) (rt : Runtime) : Runtime :=
  if negb (isOutputStable rt) then rt
  else if granted then
    mkRuntime (doc rt) (isOutputStable rt) (debouncedOutputMarkdown rt)
      (timer rt) (clock rt) (Some (debouncedOutputMarkdown rt)) (recomputes rt)
  else rt.

Inductive action :=
| Edit (c : command)
| Open (es : nat -> Env) (recover : string -> Xml.node) (files : list File)
| Copy (granted : bool).

Definition set_doc (st : State) (rt : Runtime) : Runtime :=
  mkRuntime st (isOutputStable rt) (debouncedOutputMarkdown rt) (timer rt)
    (clock rt) (clipboard rt) (recomputes rt).

(** The handler of an action, before the watcher is asked. *)
Definition handle (a : action) (rt : Runtime) : Runtime :=
  match a with
  | Edit c => set_doc (exec c (doc rt)) rt
  | Open es recover files =>
      set_doc (fst (openFromXML es recover files (doc rt))) rt
  | Copy granted => copyToClipboard granted rt
  end.

Definition attachment_eqb (a b : Attachment) : bool :=
  String.eqb (id a) (id b) && String.eqb (name a) (name b)
  && String.eqb (content a) (content b).

Fixpoint attachments_eqb (l1 l2 : list Attachment) : bool :=
  match l1, l2 with
  | [], [] => true
  | a :: l1', b :: l2' => attachment_eqb a b && attachments_eqb l1' l2'
  | _, _ => false
  end.

(** The handler replaces or splices the attachment array, which the
    watcher notices even when the array ends up with equal content. *)
Definition rewrites_array (a : action) (st : State) : bool :=
  match a with
  | Edit (Delete _) => true
  | Edit Drop =>
      JS.truthy (draggedItem st) && JS.truthy (draggedOverItem st)
      && match draggedItem st, draggedOverItem st with
         | Some d, Some t =>
             match JS.findIndex (has_id d) (attachments st),
                   JS.findIndex (has_id t) (attachments st) with
             | Some _, Some _ => true
             | _, _ => false
             end
         | _, _ => false
         end
  | Open es recover (file :: _) =>
      negb (maxSize <? file_size file)%N
      && (0 <? List.length (Xml.document_querySelectorAll "attachment"
                              (Xml.parseFromString recover (file_text file))))
  | _ => false
  end.

(** Whether the watcher of the prompt and the attachments runs its
    callback after the handler of [a]. *)
Definition triggers (a : action) (rt : Runtime) : bool :=
  rewrites_array a (doc rt)
  || negb (String.eqb (promptText (doc rt)) (promptText (doc (handle a rt))))
  || negb (attachments_eqb (attachments (doc rt)) (attachments (doc (handle a rt)))).

(** An action of the user: the handler, then the watcher. *)
Definition perform (a : action) (rt : Runtime) : Runtime :=
  if triggers a rt then watch_callback (handle a rt) else handle a rt.

(** The states the application passes through. *)
Inductive reachable : Runtime -> Prop :=
| reachable_initial : reachable initialRuntime
| reachable_perform a rt : reachable rt -> reachable (perform a rt)
| reachable_advance t rt : reachable rt -> reachable (advance t rt).

(** The output is unstable exactly while a timeout is pending. *)
Definition consistent (rt : Runtime) : Prop :=
  match timer rt with
  | Some _ => isOutputStable rt = false
  | None => isOutputStable rt = true
  end.

(** Every id in the sequence is a non-empty string, as the generated ids
    are. *)
Definition ids_nonempty (st : State) : Prop :=
  Forall (fun a => id a <> EmptyString) (attachments st).

(* ------------------------------------------------------------------ *)
(** ** Character counters *)

(** [promptText.value.length] *)
Definition promptLength (st : State) : nat := String.length (promptText st).

(** [attachments.value.reduce((total, a) => total + a.content.length, 0)] *)
Definition totalAttachmentsLength (st : State) : nat :=
  fold_left (fun total attachment => total + String.length (content attachment))
    (attachments st) 0.

(** The number shown as [Total: ... characters]. *)
Definition totalOutputLength (st : State) : nat :=
  promptLength st + totalAttachmentsLength st.

(* ------------------------------------------------------------------ *)
(** ** Names *)

(** No attachment of the sequence has the empty name. *)
Definition names_nonempty (st : State) : Prop :=
  Forall (fun a => name a <> EmptyString) (attachments st).

(** The files of a drop all have a name. *)
Definition drops_named_files (c : command) : Prop :=
  match c with
  | DropFiles files => Forall (fun ef => file_name (snd ef) <> EmptyString) files
  | _ => True
  end.

(* ------------------------------------------------------------------ *)
(** ** Timed sequences of actions *)

(** The actions of [sched] performed one after the other, each at its
    time. *)
Fixpoint play (sched : list (nat * action)) (rt : Runtime) : Runtime :=
  match sched with
  | [] => rt
  | (t, a) :: sched' => play sched' (perform a (advance t rt))
  end.

(** Every action of [sched] is answered by the watcher. *)
Fixpoint all_trigger (sched : list (nat * action)) (rt : Runtime) : bool :=
  match sched with
  | [] => true
  | (t, a) :: sched' =>
      triggers a (advance t rt) && all_trigger sched' (perform a (advance t rt))
  end.

(** The times of [sched] do not go back, and each is less than the delay
    after the one before it, [t0] being the time before the first. *)
Fixpoint close_together (t0 : nat) (sched : list (nat * action)) : bool :=
  match sched with
  | [] => true
  | (t, _) :: sched' => (t0 <=? t) && (t <? t0 + delay) && close_together t sched'
  end.

(** The time of the last action of [sched], [t0] if there is none. *)
Definition last_time (t0 : nat) (sched : list (nat * action)) : nat :=
  fold_left (fun _ ta => fst ta) sched t0.
(* ================================================================== *)
(** * Verification *)

(** ** Output compiler *)

Lemma append_assoc (a b c : string) : (a +++ b) +++ c = a +++ b +++ c.
Proof. induction a as [|x a IH]; simpl; [reflexivity | now rewrite IH]. Qed.

Lemma append_nil_r (a : string) : a +++ EmptyString = a.
Proof. induction a as [|x a IH]; simpl; [reflexivity | now rewrite IH]. Qed.

Lemma fold_sections (atts : list Attachment) (acc : string) :
  fold_left (fun output a => output +++ section_of a) atts acc
  = acc +++ fold_right (fun a rest => section_of a +++ rest) EmptyString atts.
Proof.
  revert acc; induction atts as [|a atts IH]; intros acc; simpl.
  - now rewrite append_nil_r.
  - rewrite IH. apply append_assoc.
Qed.

(** C1. [compile p atts] is [p], exactly two newlines, and then for every
    attachment in list order the level-3 heading with its name and the
    fenced block with its content verbatim, closed by a blank line; the
    worked example of the specification is an instance. *)
Theorem compile_layout :
  (forall (p : string) (atts : list Attachment),
      compile p atts
      = p +++ JS.LF +++ JS.LF +++
        fold_right
          (fun a rest =>
             ("### " +++ name a +++ JS.LF +++ "```" +++ JS.LF +++
              content a +++ JS.LF +++ "```" +++ JS.LF +++ JS.LF) +++ rest)
          EmptyString atts)
  /\ compile "Summarize:" [mkAttachment "1" "doc1" "hello"]
     = "Summarize:" +++ JS.LF +++ JS.LF +++ "### doc1" +++ JS.LF +++ "```"
       +++ JS.LF +++ "hello" +++ JS.LF +++ "```" +++ JS.LF +++ JS.LF.
Proof.
  split; [|reflexivity].
  intros p atts. unfold compile.
  destruct atts as [|a atts].
  - reflexivity.
  - cbv beta zeta. change (0 <? List.length (a :: atts)) with true. cbv iota.
    rewrite fold_sections, !append_assoc. reflexivity.
Qed.

(* ------------------------------------------------------------------ *)
(** ** Arrays *)

Section ArrayFacts.
Context {A : Type}.
Implicit Types (p : A -> bool) (l : list A).

Lemma findIndex_Some p l i :
  JS.findIndex p l = Some i ->
  exists x, nth_error l i = Some x /\ p x = true.
Proof.
  revert i; induction l as [|y l IH]; intros i; simpl; [discriminate|].
  destruct (p y) eqn:Hy.
  - intros [= <-]. now exists y.
  - destruct (JS.findIndex p l) as [j|]; simpl; [|discriminate].
    intros [= <-]. now apply IH.
Qed.

Lemma findIndex_None p l :
  JS.findIndex p l = None <-> forall x, In x l -> p x = false.
Proof.
  induction l as [|y l IH]; simpl.
  - split; [intros _ x [] | reflexivity].
  - destruct (p y) eqn:Hy.
    + split; [discriminate|]. intros H. specialize (H y (or_introl eq_refl)). congruence.
    + destruct (JS.findIndex p l) as [j|]; simpl.
      * split; [discriminate|]. intros H.
        assert (Some j = None) by (apply IH; intros x Hx; apply H; now right).
        discriminate.
      * split; [|reflexivity]. intros _ x [<-|Hx]; [assumption|].
        now apply (proj1 IH).
Qed.


Lemma update_at_nth (f : A -> A) l i x :
  nth_error l i = Some x ->
  nth_error (JS.update_at i f l) i = Some (f x).
Proof.
  revert i; induction l as [|y l IH]; intros [|i]; simpl; try discriminate.
  - now intros [= ->].
  - apply IH.
Qed.

Lemma update_at_other (f : A -> A) l i j :
  j <> i -> nth_error (JS.update_at i f l) j = nth_error l j.
Proof.
  revert i j; induction l as [|y l IH]; intros [|i] [|j] H; simpl;
    try reflexivity; try congruence.
  apply IH. congruence.
Qed.

Lemma update_at_map {B : Type} (g : A -> B) (f : A -> A) l i :
  (forall x, g (f x) = g x) -> map g (JS.update_at i f l) = map g l.
Proof.
  intros Hg. revert i; induction l as [|y l IH]; intros [|i]; simpl;
    try reflexivity.
  - now rewrite Hg.
  - now rewrite IH.
Qed.

Lemma firstn_exact (l1 l2 : list A) : firstn (List.length l1) (l1 ++ l2) = l1.
Proof. induction l1 as [|y l1 IH]; simpl; [now destruct l2 | now rewrite IH]. Qed.

Lemma skipn_exact (l1 l2 : list A) : skipn (List.length l1) (l1 ++ l2) = l2.
Proof. induction l1 as [|y l1 IH]; simpl; [reflexivity | exact IH]. Qed.

Lemma skipn_S_exact (l1 l2 : list A) x :
  skipn (S (List.length l1)) (l1 ++ x :: l2) = l2.
Proof. induction l1 as [|y l1 IH]; [reflexivity | exact IH]. Qed.

(** Removing the element at [di] and inserting it again at [ti]. *)
Lemma splice_move l di ti x :
  nth_error l di = Some x ->
  JS.splice di 1 [] l = ([x], firstn di l ++ skipn (S di) l)
  /\ snd (JS.splice ti 0 [x] (firstn di l ++ skipn (S di) l))
     = firstn ti (firstn di l ++ skipn (S di) l)
         ++ x :: skipn ti (firstn di l ++ skipn (S di) l).
Proof.
  intros Hx. unfold JS.splice. split; [|reflexivity].
  assert (Hs : skipn di l = x :: skipn (S di) l).
  { clear ti. revert di Hx; induction l as [|y l IH]; intros [|di]; simpl;
      try discriminate.
    - now intros [= ->].
    - intros H. now rewrite (IH di H). }
  rewrite Hs. reflexivity.
Qed.

Lemma remove_insert_perm l di ti x :
  nth_error l di = Some x ->
  Permutation
    (firstn ti (firstn di l ++ skipn (S di) l)
       ++ x :: skipn ti (firstn di l ++ skipn (S di) l)) l.
Proof.
  intros Hx.
  apply Permutation_trans with (x :: firstn di l ++ skipn (S di) l).
  - apply Permutation_sym, Permutation_cons_app.
    now rewrite firstn_skipn.
  - apply nth_error_split in Hx as (l1 & l2 & -> & <-).
    rewrite skipn_S_exact, firstn_exact.
    apply Permutation_middle.
Qed.
End ArrayFacts.

(* ------------------------------------------------------------------ *)
(** ** Document model *)

Lemma has_id_true i a : has_id i a = true <-> id a = i.
Proof. unfold has_id. apply String.eqb_eq. Qed.

Lemma has_id_false i a : has_id i a = false <-> id a <> i.
Proof. unfold has_id. apply String.eqb_neq. Qed.

Lemma findIndex_ext {A : Type} (p q : A -> bool) (l : list A) :
  (forall x, p x = q x) -> JS.findIndex p l = JS.findIndex q l.
Proof.
  intros H. induction l as [|x l IH]; simpl; [reflexivity|].
  now rewrite H, IH.
Qed.

Lemma findIndex_strict_eq i (l : list Attachment) :
  JS.findIndex (fun a => JS.strict_eq (Some i) (id a)) l = JS.findIndex (has_id i) l.
Proof.
  apply findIndex_ext. intros a. unfold has_id. simpl. apply String.eqb_sym.
Qed.

Lemma findIndex_present i (l : list Attachment) :
  In i (map id l) -> exists k, JS.findIndex (has_id i) l = Some k.
Proof.
  intros Hin. destruct (JS.findIndex (has_id i) l) as [k|] eqn:E; [now exists k|].
  apply in_map_iff in Hin as (a & Ha & Hl).
  rewrite findIndex_None in E. apply E in Hl. apply has_id_false in Hl.
  contradiction.
Qed.

Lemma findIndex_absent i (l : list Attachment) :
  ~ In i (map id l) -> JS.findIndex (has_id i) l = None.
Proof.
  intros Hn. apply findIndex_None. intros a Ha. apply has_id_false.
  intros E. apply Hn. apply in_map_iff. now exists a.
Qed.


Lemma find_has_id i (l : list Attachment) a :
  find (has_id i) l = Some a -> In i (map id l).
Proof.
  intros H. apply find_some in H as [Hin Hid]. apply has_id_true in Hid.
  apply in_map_iff. now exists a.
Qed.

Lemma filter_all {A : Type} (f : A -> bool) (l : list A) :
  (forall x, In x l -> f x = true) -> filter f l = l.
Proof.
  induction l as [|x l IH]; intros H; simpl; [reflexivity|].
  rewrite (H x (or_introl eq_refl)), IH; [reflexivity|].
  intros y Hy. apply H. now right.
Qed.

Lemma reorder_found atts d t di ti x :
  JS.findIndex (has_id d) atts = Some di ->
  JS.findIndex (has_id t) atts = Some ti ->
  nth_error atts di = Some x ->
  reorder d t atts
  = firstn ti (firstn di atts ++ skipn (S di) atts)
      ++ x :: skipn ti (firstn di atts ++ skipn (S di) atts).
Proof.
  intros Hd Ht Hx. unfold reorder. rewrite Hd, Ht.
  destruct (splice_move atts di ti x Hx) as [-> ->]. reflexivity.
Qed.

Lemma reorder_perm atts d t : Permutation (reorder d t atts) atts.
Proof.
  destruct (JS.findIndex (has_id d) atts) as [di|] eqn:Hd;
    [destruct (JS.findIndex (has_id t) atts) as [ti|] eqn:Ht|].
  - destruct (findIndex_Some _ _ _ Hd) as (x & Hx & _).
    rewrite (reorder_found _ _ _ _ _ _ Hd Ht Hx).
    now apply remove_insert_perm.
  - unfold reorder. rewrite Hd, Ht. reflexivity.
  - unfold reorder. rewrite Hd. reflexivity.
Qed.

(** *** The selection invariant *)

Lemma selectAttachment_attachments i st :
  attachments (selectAttachment i st) = attachments st.
Proof. unfold selectAttachment. now destruct (find _ _). Qed.

Lemma selectAttachment_valid i st :
  selection_valid st -> selection_valid (selectAttachment i st).
Proof.
  unfold selectAttachment. destruct (find _ _) as [a|] eqn:E; [|trivial].
  intros _. unfold selection_valid. simpl. now apply find_has_id with a.
Qed.

Lemma push_valid a st : selection_valid st -> selection_valid (push a st).
Proof.
  unfold selection_valid, push. simpl.
  destruct (selectedAttachmentId st); [|trivial].
  intros H. rewrite map_app. apply in_or_app. now left.
Qed.

Lemma same_ids_valid st l :
  (forall i, In i (map id (attachments st)) -> In i (map id l)) ->
  selection_valid st -> selection_valid (set_attachments l st).
Proof.
  unfold selection_valid. simpl. destruct (selectedAttachmentId st); auto.
Qed.

Lemma saveAttachmentName_valid st :
  selection_valid st -> selection_valid (saveAttachmentName st).
Proof.
  intros H. unfold saveAttachmentName.
  destruct (JS.truthy _); [|assumption].
  destruct (JS.findIndex _ _); [|exact H].
  destruct (negb _); [|exact H].
  change (selection_valid (set_attachments
    (JS.update_at n (set_name (JS.trim (editingAttachmentName st))) (attachments st)) st)).
  apply same_ids_valid; [|assumption].
  intros i. now rewrite update_at_map.
Qed.

Lemma updateAttachmentContent_valid c st :
  selection_valid st -> selection_valid (updateAttachmentContent c st).
Proof.
  intros H. unfold updateAttachmentContent.
  destruct (JS.truthy _); [|assumption].
  destruct (JS.findIndex _ _); [|assumption].
  apply same_ids_valid; [|assumption].
  intros i. now rewrite update_at_map.
Qed.

Lemma deleteAttachment_valid i st :
  selection_valid st -> selection_valid (deleteAttachment i st).
Proof.
  destruct st as [p l [s|] an ac ei en di do]; unfold deleteAttachment, selection_valid;
    simpl; [|trivial].
  destruct (String.eqb s i) eqn:E; simpl; [trivial|].
  intros H. apply in_map_iff in H as (a & Ha & Hin).
  apply in_map_iff. exists a. split; [assumption|].
  apply filter_In. split; [assumption|].
  apply negb_true_iff, has_id_false. apply String.eqb_neq in E. congruence.
Qed.

Lemma handleDrop_valid files st :
  selection_valid st -> selection_valid (handleDrop files st).
Proof.
  unfold handleDrop. revert st.
  induction files as [|[e f] files IH]; intros st H; simpl; [assumption|].
  apply IH. unfold handleDropFile. simpl.
  destruct (maxSize <? file_size f)%N; [assumption | now apply push_valid].
Qed.

Lemma drop_valid st : selection_valid st -> selection_valid (drop st).
Proof.
  intros H. unfold drop.
  assert (Hd : forall s, selection_valid s -> selection_valid (dragEnd s))
    by (intros s Hs; exact Hs).
  apply Hd.
  destruct (JS.truthy (draggedItem st) && JS.truthy (draggedOverItem st));
    [|assumption].
  destruct (draggedItem st) as [d|]; [|assumption].
  destruct (draggedOverItem st) as [t|]; [|assumption].
  apply same_ids_valid; [|assumption].
  intros i Hi. apply in_map_iff in Hi as (a & Ha & Hin).
  apply in_map_iff. exists a. split; [assumption|].
  apply Permutation_in with (attachments st); [|assumption].
  apply Permutation_sym, reorder_perm.
Qed.

Lemma exec_valid c st : selection_valid st -> selection_valid (exec c st).
Proof.
  intros H. destruct c; simpl; try exact H.
  - unfold addEmptyAttachment. now apply selectAttachment_valid, push_valid.
  - unfold addFromClipboard. destruct readText as [text|]; [|assumption].
    destruct (negb _); [now apply push_valid | assumption].
  - now apply handleDrop_valid.
  - now apply selectAttachment_valid.
  - unfold startEditingName.
    exact (selectAttachment_valid i st H).
  - now apply saveAttachmentName_valid.
  - apply updateAttachmentContent_valid. exact H.
  - now apply deleteAttachment_valid.
  - unfold dragOver. destruct (negb _); exact H.
  - now apply drop_valid.
Qed.

(** C3. After any sequence of add, rename, select and delete commands (and
    of the other editing commands: prompt and content edits, file drops,
    drag reordering) applied to the initially empty document, the selection
    is [null] or the id of an attachment of the sequence. *)
Theorem selection_always_valid (cs : list command) :
  match selectedAttachmentId (run cs initialState) with
  | None => True
  | Some i => exists a, In a (attachments (run cs initialState)) /\ id a = i
  end.
Proof.
  assert (H : selection_valid (run cs initialState)).
  { unfold run. generalize initialState, (I : selection_valid initialState).
    induction cs as [|c cs IH]; intros st Hst; simpl; [assumption|].
    apply IH. now apply exec_valid. }
  unfold selection_valid in H.
  destruct (selectedAttachmentId _); [|trivial].
  apply in_map_iff in H as (a & Ha & Hin). now exists a.
Qed.

(** *** Generated ids *)

Lemma N_toString_nonempty n : JS.N_toString n <> EmptyString.
Proof.
  unfold JS.N_toString. destruct n as [|p]; [discriminate|].
  simpl. pose proof (Unsigned.to_uint_nonnil p) as H.
  destruct (Pos.to_uint p); try contradiction; discriminate.
Qed.

Lemma newId_nonempty e : newId e <> EmptyString.
Proof.
  unfold newId. pose proof (N_toString_nonempty (now_ms e)) as H.
  destruct (JS.N_toString (now_ms e)); [contradiction | discriminate].
Qed.

Lemma push_ids_nonempty a st :
  id a <> EmptyString -> ids_nonempty st -> ids_nonempty (push a st).
Proof.
  intros Ha H. unfold ids_nonempty, push. simpl.
  apply Forall_app. split; [assumption | now constructor].
Qed.

Lemma update_at_Forall {A : Type} (P : A -> Prop) (f : A -> A) (l : list A) i :
  (forall x, P x -> P (f x)) -> Forall P l -> Forall P (JS.update_at i f l).
Proof.
  intros Hf H. revert i; induction H as [|x l Hx Hl IH]; intros [|i]; simpl;
    try constructor; auto.
Qed.

Lemma exec_ids_nonempty c st : ids_nonempty st -> ids_nonempty (exec c st).
Proof.
  intros H. destruct c; simpl; try exact H.
  - unfold addEmptyAttachment, ids_nonempty.
    rewrite selectAttachment_attachments.
    apply push_ids_nonempty; [apply newId_nonempty | exact H].
  - unfold addFromClipboard. destruct readText as [text|]; [|assumption].
    destruct (negb _); [|assumption].
    apply push_ids_nonempty; [apply N_toString_nonempty | exact H].
  - unfold handleDrop. revert st H.
    induction files as [|[e f] files IH]; intros st H; simpl; [assumption|].
    apply IH. unfold handleDropFile. simpl.
    destruct (maxSize <? file_size f)%N; [assumption|].
    apply push_ids_nonempty; [apply newId_nonempty | exact H].
  - unfold ids_nonempty. now rewrite selectAttachment_attachments.
  - unfold startEditingName, ids_nonempty. simpl.
    now rewrite selectAttachment_attachments.
  - unfold saveAttachmentName.
    destruct (JS.truthy _); [|assumption].
    destruct (JS.findIndex _ _); [|exact H].
    destruct (negb _); [|exact H].
    unfold ids_nonempty. simpl. now apply update_at_Forall.
  - unfold updateAttachmentContent. simpl.
    destruct (JS.truthy _); [|assumption].
    destruct (JS.findIndex _ _); [|exact H].
    unfold ids_nonempty. simpl. now apply update_at_Forall.
  - unfold deleteAttachment, ids_nonempty in *. simpl.
    assert (Hf : Forall (fun a => id a <> EmptyString)
                   (filter (fun a => negb (has_id i a)) (attachments st))).
    { apply Forall_forall. intros a Ha. apply filter_In in Ha as [Ha _].
      rewrite Forall_forall in H. now apply H. }
    now destruct (JS.strict_eq _ _).
  - unfold dragOver. destruct (negb _); exact H.
  - unfold drop, ids_nonempty. simpl.
    destruct (JS.truthy (draggedItem st) && JS.truthy (draggedOverItem st));
      [|assumption].
    destruct (draggedItem st) as [d|]; [|assumption].
    destruct (draggedOverItem st) as [t|]; [|assumption].
    simpl. apply Forall_forall. intros a Ha.
    unfold ids_nonempty in H. rewrite Forall_forall in H. apply H.
    now apply (Permutation_in _ (reorder_perm (attachments st) d t)).
Qed.

(** The ids that the editing commands put into the sequence are never
    empty, so the truthiness tests of the handlers never take an id for
    [null]. *)
Lemma run_ids_nonempty cs : ids_nonempty (run cs initialState).
Proof.
  unfold run.
  generalize initialState, (Forall_nil _ : ids_nonempty initialState).
  induction cs as [|c cs IH]; intros st Hst; simpl; [assumption|].
  apply IH. now apply exec_ids_nonempty.
Qed.

(** *** Reordering *)

(** C6. For two distinct ids that are both present, [reorder] takes the
    dragged attachment out of the sequence and puts it back at the index the
    target had, in front of whatever the removal shifted to that index; if
    either id is absent or the two are equal the sequence is unchanged; and
    on [[A; B; C]] moving [C] onto [A] gives [[C; A; B]]. *)
Theorem reorder_moves_dragged_to_target (atts : list Attachment) (d t : string) :
  (d <> t -> In d (map id atts) -> In t (map id atts) ->
   exists di ti moved,
     JS.findIndex (has_id d) atts = Some di /\
     JS.findIndex (has_id t) atts = Some ti /\
     nth_error atts di = Some moved /\ id moved = d /\
     reorder d t atts
     = firstn ti (firstn di atts ++ skipn (S di) atts)
         ++ moved :: skipn ti (firstn di atts ++ skipn (S di) atts) /\
     nth_error (reorder d t atts) ti = Some moved)
  /\ (~ In d (map id atts) \/ ~ In t (map id atts) \/ d = t ->
      reorder d t atts = atts)
  /\ (forall A B C : Attachment,
        id C <> id A -> id C <> id B ->
        reorder (id C) (id A) [A; B; C] = [C; A; B]).
Proof.
  split; [|split].
  - intros _ Hd Ht.
    destruct (findIndex_present _ _ Hd) as [di Hdi].
    destruct (findIndex_present _ _ Ht) as [ti Hti].
    destruct (findIndex_Some _ _ _ Hdi) as (moved & Hm & Hid).
    destruct (findIndex_Some _ _ _ Hti) as (tgt & Htg & _).
    exists di, ti, moved. repeat split; try assumption.
    + now apply has_id_true.
    + now apply reorder_found.
    + rewrite (reorder_found _ _ _ _ _ _ Hdi Hti Hm).
      assert (Hlen : List.length (firstn ti (firstn di atts ++ skipn (S di) atts)) = ti).
      { apply firstn_length_le.
        assert (ti < List.length atts) by (apply nth_error_Some; congruence).
        assert (di < List.length atts) by (apply nth_error_Some; congruence).
        rewrite length_app, length_firstn, length_skipn. lia. }
      rewrite nth_error_app2 by lia. rewrite Hlen, Nat.sub_diag. reflexivity.
  - intros [Hd | [Ht | ->]].
    + unfold reorder. now rewrite (findIndex_absent _ _ Hd).
    + unfold reorder. rewrite (findIndex_absent _ _ Ht).
      now destruct (JS.findIndex _ _).
    + destruct (JS.findIndex (has_id t) atts) as [k|] eqn:Hk.
      * destruct (findIndex_Some _ _ _ Hk) as (x & Hx & _).
        rewrite (reorder_found _ _ _ _ _ _ Hk Hk Hx).
        apply nth_error_split in Hx as (l1 & l2 & -> & <-).
        rewrite skipn_S_exact, !firstn_exact, skipn_exact. reflexivity.
      * unfold reorder. now rewrite Hk.
  - intros A B C HA HB.
    assert (E1 : has_id (id C) A = false) by (apply has_id_false; congruence).
    assert (E2 : has_id (id C) B = false) by (apply has_id_false; congruence).
    assert (E3 : has_id (id C) C = true) by now apply has_id_true.
    assert (E4 : has_id (id A) A = true) by now apply has_id_true.
    unfold reorder. simpl. rewrite E1, E2, E3, E4. reflexivity.
Qed.

Lemma reorder_moves_dragged_to_target_witness :
  let A := mkAttachment "a" "A" "x" in
  let B := mkAttachment "b" "B" "y" in
  let C := mkAttachment "c" "C" "z" in
  (exists di ti moved,
     JS.findIndex (has_id "c") [A; B; C] = Some di /\
     JS.findIndex (has_id "a") [A; B; C] = Some ti /\
     nth_error [A; B; C] di = Some moved /\ id moved = "c" /\
     reorder "c" "a" [A; B; C]
     = firstn ti (firstn di [A; B; C] ++ skipn (S di) [A; B; C])
         ++ moved :: skipn ti (firstn di [A; B; C] ++ skipn (S di) [A; B; C]) /\
     nth_error (reorder "c" "a" [A; B; C]) ti = Some moved)
  /\ reorder "b" "b" [A; B] = [A; B]
  /\ reorder "c" "a" [A; B; C] = [C; A; B].
Proof.
  intros A B C. split; [|split].
  - apply (proj1 (reorder_moves_dragged_to_target [A; B; C] "c" "a")).
    + discriminate.
    + simpl. tauto.
    + simpl. tauto.
  - apply (proj1 (proj2 (reorder_moves_dragged_to_target [A; B] "b" "b"))).
    right. right. reflexivity.
  - apply (proj2 (proj2 (reorder_moves_dragged_to_target [] EmptyString EmptyString)) A B C);
      discriminate.
Defined.

Lemma drop_attachments st d t :
  draggedItem st = Some d -> draggedOverItem st = Some t ->
  d <> EmptyString -> t <> EmptyString ->
  attachments (drop st) = reorder d t (attachments st).
Proof.
  intros Hd Ht Hd' Ht'. unfold drop. rewrite Hd, Ht. simpl.
  apply String.eqb_neq in Hd', Ht'. rewrite Hd', Ht'. reflexivity.
Qed.

(** *** Renaming *)




(** *** Deleting *)

(** C10, as amended.  Deleting an id that no attachment of the sequence
    carries leaves the attachment sequence (order, ids, names, contents) and
    the prompt as they were.  Unless the selection is that very id, the
    selection and the whole state are left as they were too; a selection of
    that id (a stale one, which an import can leave behind) is cleared. *)
Theorem delete_absent_id_keeps_sequence (st : State) (i : string) :
  ~ In i (map id (attachments st)) ->
  attachments (deleteAttachment i st) = attachments st
  /\ promptText (deleteAttachment i st) = promptText st
  /\ (selectedAttachmentId st <> Some i -> deleteAttachment i st = st)
  /\ (selectedAttachmentId st = Some i ->
      selectedAttachmentId (deleteAttachment i st) = None).
Proof.
  intros Hi.
  assert (Hf : filter (fun a => negb (has_id i a)) (attachments st) = attachments st).
  { apply filter_all. intros a Ha. apply negb_true_iff, has_id_false.
    intros Hid. apply Hi, in_map_iff. now exists a. }
  destruct st as [p l sel an ac ei en di do].
  unfold deleteAttachment. simpl in *. rewrite Hf.
  split; [now destruct (JS.strict_eq sel i)|].
  split; [now destruct (JS.strict_eq sel i)|].
  split.
  - intros Hsel. destruct sel as [s|]; simpl; [|reflexivity].
    destruct (String.eqb s i) eqn:Es; [|reflexivity].
    apply String.eqb_eq in Es. congruence.
  - intros ->. simpl. now rewrite String.eqb_refl.
Qed.

Lemma delete_absent_id_keeps_sequence_witness :
  let st := set_selectedAttachmentId (Some "17a")
              (set_attachments [mkAttachment "17a" "notes" "text"] initialState) in
  deleteAttachment "99z" st = st.
Proof.
  intros st.
  apply (proj1 (proj2 (proj2 (delete_absent_id_keeps_sequence st "99z"
                                ltac:(simpl; intuition discriminate))))).
  discriminate.
Defined.

(* ------------------------------------------------------------------ *)
(** ** The XML parser on the text of an export *)

Lemma all_chars_app p a b :
  Xml.all_chars p (a +++ b) = Xml.all_chars p a && Xml.all_chars p b.
Proof.
  induction a as [|c a IH]; simpl; [reflexivity|].
  now rewrite IH, andb_assoc.
Qed.

Lemma normalize_eol_id s :
  Xml.all_chars (fun c => negb (Ascii.eqb c Xml.CR)) s = true ->
  Xml.normalize_eol s = s.
Proof.
  induction s as [|c s IH]; simpl; [reflexivity|].
  intros H. apply andb_true_iff in H as [Hc Hs].
  apply negb_true_iff in Hc. rewrite Hc. now rewrite IH.
Qed.

Lemma has_cdata_end_app_tail a s :
  has_cdata_end (a +++ s) = false -> has_cdata_end s = false.
Proof.
  induction a as [|c a IH]; [trivial|].
  change ((String c a) +++ s) with (String c (a +++ s)).
  cbn [has_cdata_end]. intros H. apply orb_false_elim in H as [_ H]. auto.
Qed.

Lemma is_ch_true x c : Xml.is_ch (String x EmptyString) c = true -> c = x.
Proof. simpl. apply Ascii.eqb_eq. Qed.

Ltac same_data :=
  simpl; unfold Xml.snoc; simpl; rewrite ?append_assoc, ?append_nil_r; simpl;
  reflexivity.

(** A CDATA section whose data holds no ["]]>"] is read back whole. *)
Lemma lex_cdata s : forall buf b rest,
  Xml.all_chars Xml.is_char s = true ->
  has_cdata_end (Xml.pending b +++ s) = false ->
  Xml.lex (Xml.InCData buf b) (s +++ String "]" (String "]" (String ">" rest)))
  = Xml.emit [Xml.TCData (buf +++ Xml.pending b +++ s)]
      (Xml.lex (Xml.InText EmptyString Xml.B0) rest).
Proof.
  induction s as [|c s IH]; intros buf b rest Hch Hend.
  - destruct b; same_data.
  - simpl in Hch. apply andb_true_iff in Hch as [Hc Hs].
    change ((String c s) +++ ?r) with (String c (s +++ r)).
    cbn [Xml.lex]. unfold Xml.step. rewrite Hc. cbn [negb].
    destruct (Xml.is_ch "]" c) eqn:E1.
    { apply is_ch_true in E1. subst c.
      destruct b; cbn [Xml.emit]; (rewrite IH; [same_data | assumption |]);
        simpl in Hend; simpl; exact Hend. }
    assert (Htail : has_cdata_end s = false).
    { apply (has_cdata_end_app_tail (Xml.pending b +++ String c EmptyString)).
      now rewrite append_assoc. }
    destruct (Xml.is_ch ">" c) eqn:E2.
    { apply is_ch_true in E2. subst c.
      destruct b; cbn [Xml.emit];
        try (rewrite IH; [same_data | assumption | exact Htail]).
      simpl in Hend. discriminate. }
    cbn [Xml.emit]. rewrite IH; [same_data | assumption | exact Htail].
Qed.

Lemma fold_left_append {A : Type} (f : A -> string) (l : list A) (acc : string) :
  fold_left (fun x a => x +++ f a) l acc
  = acc +++ fold_right (fun a r => f a +++ r) EmptyString l.
Proof.
  revert acc; induction l as [|a l IH]; intros acc; simpl.
  - now rewrite append_nil_r.
  - rewrite IH. apply append_assoc.
Qed.

Lemma fold_right_append_tail {A : Type} (f : A -> string) (l : list A) (tail : string) :
  fold_right (fun a r => f a +++ r) EmptyString l +++ tail
  = fold_right (fun a r => f a +++ r) tail l.
Proof.
  induction l as [|a l IH]; simpl; [reflexivity|].
  now rewrite append_assoc, IH.
Qed.

(** The text of an export, written from left to right. *)
Lemma saveToXML_eq st :
  saveToXML st
  = "<?xml version=" +++ DQ +++ "1.0" +++ DQ +++ " encoding=" +++ DQ +++ "UTF-8"
    +++ DQ +++ "?>" +++ JS.LF +++ "<promptBuilder>" +++ JS.LF
    +++ "  <prompt><![CDATA[" +++ promptText st +++ "]]></prompt>" +++ JS.LF
    +++ match attachments st with
        | [] => "</promptBuilder>"
        | _ :: _ =>
            "  <attachments>" +++ JS.LF
            +++ fold_right (fun a r => attachment_xml a +++ r)
                  ("  </attachments>" +++ JS.LF +++ "</promptBuilder>")
                  (attachments st)
        end.
Proof.
  unfold saveToXML. destruct (attachments st) as [|a l]; cbv zeta.
  - change (0 <? List.length (@nil Attachment)) with false. cbv iota.
    rewrite !append_assoc. reflexivity.
  - change (0 <? List.length (a :: l)) with true. cbv iota.
    rewrite fold_left_append, !append_assoc, fold_right_append_tail.
    reflexivity.
Qed.

Lemma verbatim_chars s : verbatim s = true -> Xml.all_chars Xml.is_char s = true.
Proof.
  unfold verbatim. intros H. apply andb_true_iff in H as [H _].
  induction s as [|c s IH]; simpl in *; [reflexivity|].
  apply andb_true_iff in H as [Hc Hs]. apply andb_true_iff in Hc as [Hc _].
  now rewrite Hc, IH.
Qed.

Lemma verbatim_no_cr s :
  verbatim s = true -> Xml.all_chars (fun c => negb (Ascii.eqb c Xml.CR)) s = true.
Proof.
  unfold verbatim. intros H. apply andb_true_iff in H as [H _].
  induction s as [|c s IH]; simpl in *; [reflexivity|].
  apply andb_true_iff in H as [Hc Hs]. apply andb_true_iff in Hc as [_ Hc].
  now rewrite Hc, IH.
Qed.

Lemma verbatim_no_end s : verbatim s = true -> has_cdata_end s = false.
Proof.
  unfold verbatim. intros H. apply andb_true_iff in H as [_ H].
  now apply negb_true_iff in H.
Qed.

Lemma emit_Some out toks : Xml.emit out (Some toks) = Some (out ++ toks).
Proof. now destruct out. Qed.

Lemma emit_None out : Xml.emit out None = None.
Proof. now destruct out. Qed.

Lemma emit_app a b r : Xml.emit (a ++ b) r = Xml.emit a (Xml.emit b r).
Proof.
  destruct r as [x|]; [|now rewrite !emit_None].
  now rewrite !emit_Some, app_assoc.
Qed.

Lemma lex_scan a : forall m b,
  Xml.lex m (a +++ b)
  = match Xml.scan m a with
    | Some (m', out) => Xml.emit out (Xml.lex m' b)
    | None => None
    end.
Proof.
  induction a as [|c a IH]; intros m b; [reflexivity|].
  change (String c a +++ b) with (String c (a +++ b)). cbn [Xml.lex Xml.scan].
  destruct (Xml.step m c) as [[m' out]|]; [|reflexivity].
  rewrite IH. destruct (Xml.scan m' a) as [[m'' out']|]; [|apply emit_None].
  symmetry. apply emit_app.
Qed.

(** Runs the lexer over the literal text in front of the input. *)
Ltac scan_literal :=
  rewrite lex_scan;
  match goal with
  | |- context [Xml.scan ?m ?l] =>
      let v := eval vm_compute in (Xml.scan m l) in
      replace (Xml.scan m l) with v by (vm_compute; reflexivity)
  end;
  cbv beta iota.

Lemma lex_cdata_lit s buf b rest :
  verbatim s = true ->
  has_cdata_end (Xml.pending b +++ s) = false ->
  Xml.lex (Xml.InCData buf b) (s +++ "]]>" +++ rest)
  = Xml.emit [Xml.TCData (buf +++ Xml.pending b +++ s)]
      (Xml.lex (Xml.InText EmptyString Xml.B0) rest).
Proof. intros Hv Hend. exact (lex_cdata s buf b rest (verbatim_chars s Hv) Hend). Qed.

Lemma attachment_xml_eq a rest :
  attachment_xml a +++ rest
  = ("    <attachment>" +++ JS.LF +++ "      <name><![CDATA[") +++ name a +++ "]]>"
    +++ ("</name>" +++ JS.LF +++ "      <content><![CDATA[") +++ content a +++ "]]>"
    +++ ("</content>" +++ JS.LF +++ "    </attachment>" +++ JS.LF) +++ rest.
Proof. unfold attachment_xml. rewrite !append_assoc. reflexivity. Qed.

Lemma lex_attachment a rest :
  verbatim (name a) = true -> verbatim (content a) = true ->
  Xml.lex (Xml.InText JS.LF Xml.B0) (attachment_xml a +++ rest)
  = Xml.emit (attachment_tokens a) (Xml.lex (Xml.InText JS.LF Xml.B0) rest).
Proof.
  intros Hn Hc. rewrite attachment_xml_eq.
  scan_literal. rewrite lex_cdata_lit by (auto using verbatim_no_end).
  scan_literal. rewrite lex_cdata_lit by (auto using verbatim_no_end).
  scan_literal. unfold JS.LF.
  destruct (Xml.lex _ rest); reflexivity.
Qed.

Lemma lex_attachments atts rest :
  Forall (fun a => verbatim (name a) = true /\ verbatim (content a) = true
                   /\ name a <> EmptyString) atts ->
  Xml.lex (Xml.InText JS.LF Xml.B0)
    (fold_right (fun a r => attachment_xml a +++ r) rest atts)
  = Xml.emit (flat_map attachment_tokens atts)
      (Xml.lex (Xml.InText JS.LF Xml.B0) rest).
Proof.
  induction 1 as [|a atts (Hn & Hc & _) _ IH]; [reflexivity|].
  cbn [fold_right flat_map]. rewrite lex_attachment by assumption.
  now rewrite IH, emit_app.
Qed.

(** The text of an export after its declaration. *)
Lemma export_text_eq st :
  Xml.strip_declaration (saveToXML st)
  = (JS.LF +++ "<promptBuilder>" +++ JS.LF +++ "  <prompt><![CDATA[")
    +++ promptText st +++ "]]>"
    +++ match attachments st with
        | [] => "</prompt>" +++ JS.LF +++ "</promptBuilder>"
        | _ :: _ =>
            ("</prompt>" +++ JS.LF +++ "  <attachments>" +++ JS.LF)
            +++ fold_right (fun a r => attachment_xml a +++ r)
                  ("  </attachments>" +++ JS.LF +++ "</promptBuilder>")
                  (attachments st)
        end.
Proof. rewrite saveToXML_eq. now destruct (attachments st). Qed.

Lemma lex_export st :
  exportable st ->
  Xml.lex (Xml.InText EmptyString Xml.B0) (Xml.strip_declaration (saveToXML st))
  = Some (export_tokens st).
Proof.
  intros [Hp Ha]. rewrite export_text_eq. unfold export_tokens.
  scan_literal. rewrite lex_cdata_lit by (auto using verbatim_no_end).
  destruct (attachments st) as [|a l] eqn:E.
  - reflexivity.
  - scan_literal.
    change (Xml.InText (String "010"%char EmptyString) Xml.B0)
      with (Xml.InText JS.LF Xml.B0).
    rewrite lex_attachments by assumption.
    replace (Xml.lex (Xml.InText JS.LF Xml.B0)
               ("  </attachments>" +++ JS.LF +++ "</promptBuilder>"))
      with (Some [Xml.TText ws2; Xml.TEnd "attachments";
                  Xml.TText JS.LF; Xml.TEnd "promptBuilder"])
      by (vm_compute; reflexivity).
    rewrite emit_Some. cbn [Xml.emit option_map app]. rewrite <- !app_assoc.
    reflexivity.
Qed.

Lemma build_attachments atts : forall toks kids rest root,
  Xml.build (flat_map attachment_tokens atts ++ toks)
    (("attachments", kids) :: rest) root
  = Xml.build toks
      (("attachments", kids ++ flat_map attachment_nodes atts) :: rest) root.
Proof.
  induction atts as [|a atts IH]; intros toks kids rest root.
  - simpl. now rewrite app_nil_r.
  - cbn [flat_map]. rewrite <- app_assoc.
    unfold attachment_tokens at 1. simpl.
    rewrite IH. rewrite <- !app_assoc. reflexivity.
Qed.

Lemma build_export st :
  Xml.build (export_tokens st) [] None = Some (export_tree st).
Proof.
  unfold export_tokens, export_tree.
  destruct (attachments st) as [|a l].
  - reflexivity.
  - remember (a :: l) as atts. simpl.
    rewrite <- !app_assoc. rewrite build_attachments. reflexivity.
Qed.

Lemma parse_export st :
  exportable st -> Xml.parse (saveToXML st) = Some (export_tree st).
Proof.
  intros H. unfold Xml.parse.
  rewrite normalize_eol_id.
  - now rewrite lex_export, build_export.
  - destruct H as [Hp Ha]. rewrite saveToXML_eq.
    rewrite !all_chars_app. rewrite (verbatim_no_cr _ Hp).
    destruct (attachments st) as [|a l]; [reflexivity|].
    rewrite !all_chars_app.
    assert (Hfr : Xml.all_chars (fun c => negb (Ascii.eqb c Xml.CR))
              (fold_right (fun a r => attachment_xml a +++ r)
                 ("  </attachments>" +++ JS.LF +++ "</promptBuilder>") (a :: l)) = true).
    { induction Ha as [|b bs (Hn & Hc & _) _ IH]; [reflexivity|].
      cbn [fold_right]. unfold attachment_xml at 1.
      rewrite !all_chars_app, IH, (verbatim_no_cr _ Hn), (verbatim_no_cr _ Hc).
      reflexivity. }
    rewrite Hfr. reflexivity.
Qed.

Lemma parseFromString_export recover st :
  exportable st -> Xml.parseFromString recover (saveToXML st) = export_tree st.
Proof. intros H. unfold Xml.parseFromString. now rewrite parse_export. Qed.

Lemma or_else_empty s : JS.or_else s EmptyString = s.
Proof. unfold JS.or_else. destruct (String.eqb_spec s EmptyString); congruence. Qed.

Lemma or_else_nonempty s d : s <> EmptyString -> JS.or_else s d = s.
Proof. unfold JS.or_else. intros H. apply String.eqb_neq in H. now rewrite H. Qed.

Lemma attachment_elements_found atts tail :
  filter (Xml.is_element "attachment")
    (flat_map (fun k => k :: Xml.descendants k)
       (flat_map attachment_nodes atts ++ tail))
  = map attachment_element atts
    ++ filter (Xml.is_element "attachment")
         (flat_map (fun k => k :: Xml.descendants k) tail).
Proof.
  induction atts as [|a atts IH]; [reflexivity|].
  cbn [flat_map map]. unfold attachment_nodes at 1.
  simpl. now rewrite IH.
Qed.

Lemma export_attachment_elements st :
  Xml.document_querySelectorAll "attachment" (export_tree st)
  = map attachment_element (attachments st).
Proof.
  unfold Xml.document_querySelectorAll, export_tree.
  destruct (attachments st) as [|a l]; [reflexivity|].
  remember (a :: l) as atts. simpl.
  rewrite filter_app, attachment_elements_found. simpl.
  now rewrite !app_nil_r.
Qed.

Lemma export_prompt_element st :
  Xml.document_querySelector "prompt" (export_tree st)
  = Some (Xml.Element "prompt" [Xml.CData (promptText st)]).
Proof. reflexivity. Qed.

Lemma load_records_export es atts : forall k st,
  Forall (fun a => verbatim (name a) = true /\ verbatim (content a) = true
                   /\ name a <> EmptyString) atts ->
  load_records es k (map attachment_element atts) st
  = set_attachments (attachments st ++ fresh_copies es k atts) st.
Proof.
  induction atts as [|a atts IH]; intros k st H.
  - simpl. rewrite app_nil_r. now destruct st.
  - inversion H as [|? ? (_ & _ & Hn) Hrest]; subst.
    cbn [map load_records fresh_copies].
    change (Xml.querySelector "name" (attachment_element a))
      with (Some (Xml.Element "name" [Xml.CData (name a)])).
    change (Xml.querySelector "content" (attachment_element a))
      with (Some (Xml.Element "content" [Xml.CData (content a)])).
    cbn iota. cbn [Xml.textContent map String.concat].
    rewrite or_else_empty, (or_else_nonempty _ _ Hn), (IH _ _ Hrest).
    unfold push. cbn [attachments set_attachments].
    rewrite <- app_assoc. reflexivity.
Qed.

(** Importing the text of an export. *)
Lemma onload_export es recover doc st :
  exportable doc ->
  onload es recover (saveToXML doc) st
  = (match attachments doc with
     | [] => set_promptText (promptText doc) st
     | _ :: _ =>
         set_attachments (fresh_copies es 0 (attachments doc))
           (set_promptText (promptText doc) st)
     end, []).
Proof.
  intros H. unfold onload, onload_body.
  rewrite (parseFromString_export recover _ H), export_prompt_element,
    export_attachment_elements.
  cbn [Xml.textContent map String.concat]. rewrite or_else_empty, length_map.
  destruct (attachments doc) as [|a l] eqn:E; [reflexivity|].
  change (0 <? List.length (a :: l)) with true. cbn iota.
  rewrite load_records_export by (rewrite <- E; apply H).
  reflexivity.
Qed.

Lemma fresh_copies_pairs es l : forall k,
  map (fun a => (name a, content a)) (fresh_copies es k l)
  = map (fun a => (name a, content a)) l.
Proof. induction l as [|a l IH]; intros k; simpl; [reflexivity | now rewrite IH]. Qed.

Lemma fresh_copies_ids es l : forall k,
  map id (fresh_copies es k l) = map (fun j => newId (es j)) (seq k (List.length l)).
Proof. induction l as [|a l IH]; intros k; simpl; [reflexivity | now rewrite IH]. Qed.

(** C2, as amended.  For a document whose strings a CDATA section carries
    verbatim (characters of XML, no carriage return, no ["]]>"]) and whose
    attachment names are not empty, importing its export raises no alert and
    restores the prompt; if the document has attachments, the import
    replaces the attachment sequence by one with the same (name, content)
    pairs in the same order, every id freshly generated; if it has none, the
    attachment sequence of the importing document stays. *)
Theorem import_of_export_restores
    (es : nat -> Env) (recover : string -> Xml.node) (doc st : State) :
  exportable doc ->
  let st' := deserialize es recover (saveToXML doc) st in
  snd (onload es recover (saveToXML doc) st) = []
  /\ promptText st' = promptText doc
  /\ (attachments doc <> [] ->
      pairs st' = pairs doc
      /\ map id (attachments st')
         = map (fun k => newId (es k)) (seq 0 (List.length (attachments doc))))
  /\ (attachments doc = [] -> attachments st' = attachments st).
Proof.
  intros H st'. subst st'. unfold deserialize, pairs.
  rewrite (onload_export es recover doc st H).
  destruct (attachments doc) as [|a l] eqn:E; cbn [fst snd].
  - split; [reflexivity|]. split; [reflexivity|]. split.
    + intros Hne. now contradiction Hne.
    + reflexivity.
  - split; [reflexivity|]. split; [reflexivity|]. split.
    + intros _. cbn [attachments set_attachments]. split.
      * apply fresh_copies_pairs.
      * apply fresh_copies_ids.
    + discriminate.
Qed.

Lemma import_of_export_restores_witness :
  let doc := set_attachments
               [mkAttachment "1" "doc1" "hello"; mkAttachment "2" "notes" "a]]b > c"]
               (set_promptText "Summarize <this> & that:" initialState) in
  let st' := deserialize sample_env Xml.standard_recovery (saveToXML doc) initialState in
  promptText st' = "Summarize <this> & that:"
  /\ pairs st' = [("doc1", "hello"); ("notes", "a]]b > c")].
Proof.
  intros doc st'.
  assert (Hdoc : exportable doc).
  { split; [reflexivity|].
    repeat constructor; try reflexivity; discriminate. }
  destruct (import_of_export_restores sample_env Xml.standard_recovery doc
              initialState Hdoc)
    as (_ & Hp & Ha & _).
  split; [exact Hp|].
  apply Ha. discriminate.
Defined.

(** C2, as it stands, fails: a content with ["]]>"] ends its CDATA section
    early and does not come back; an empty name comes back as [Untitled]; a
    carriage return comes back as a line feed; and a document without
    attachments leaves the attachments of the importing document in place. *)
Lemma import_of_export_counterexample :
  let doc1 := set_attachments [mkAttachment "1" "doc1" "a]]>b"]
                (set_promptText "p" initialState) in
  let doc2 := set_attachments [mkAttachment "1" EmptyString "hello"] initialState in
  let doc3 := set_attachments
                [mkAttachment "1" "doc1" (String "a" (String Xml.CR "b"))] initialState in
  let doc4 := set_promptText "p" initialState in
  pairs (deserialize sample_env Xml.standard_recovery (saveToXML doc1) initialState)
     <> pairs doc1
  /\ pairs (deserialize sample_env Xml.standard_recovery (saveToXML doc2) initialState)
     <> pairs doc2
  /\ pairs (deserialize sample_env Xml.standard_recovery (saveToXML doc3) initialState)
     <> pairs doc3
  /\ pairs (deserialize sample_env Xml.standard_recovery (saveToXML doc4) doc2)
     <> pairs doc4.
Proof.
  vm_compute. repeat split; discriminate.
Qed.

(** *** Input that is not well-formed *)

(** C7.  The parser answers every text, the texts that are not well-formed
    among them, with a document and never throws, so that the [catch] clause
    of the import is never entered: whatever the file holds, reading it
    raises no alert, and the only notice an import can give is the one for a
    file that is too large. *)
Theorem import_never_reports_parse_failure
    (es : nat -> Env) (recover : string -> Xml.node) (text : string)
    (files : list File) (st : State) :
  snd (onload es recover text st) = []
  /\ (forall err, ~ In (ParseFailed err) (snd (openFromXML es recover files st))).
Proof.
  assert (H : forall t, snd (onload es recover t st) = []).
  { intros t. unfold onload, onload_body. cbv zeta.
    now destruct (0 <? List.length _). }
  split; [apply H|]. intros err. unfold openFromXML.
  destruct files as [|file others]; [intros []|].
  destruct (maxSize <? file_size file)%N.
  - intros [E|[]]. discriminate.
  - rewrite H. intros [].
Qed.

(** *** Input without attachment records *)

(** C8, as amended.  When the imported text holds no attachment element,
    the attachment sequence is left as it was before the import: the
    attachments already present are kept. *)
Theorem import_without_records_keeps_attachments
    (es : nat -> Env) (recover : string -> Xml.node) (text : string) (st : State) :
  Xml.document_querySelectorAll "attachment" (Xml.parseFromString recover text) = [] ->
  attachments (deserialize es recover text st) = attachments st.
Proof.
  intros H. unfold deserialize, onload, onload_body. rewrite H.
  change (0 <? List.length (@nil Xml.node)) with false. cbv iota.
  now destruct (Xml.document_querySelector "prompt"
                  (Xml.parseFromString recover text)).
Qed.

Lemma import_without_records_keeps_attachments_witness :
  let st := set_attachments [mkAttachment "1" "doc1" "hello"] initialState in
  attachments (deserialize sample_env Xml.standard_recovery
                 (saveToXML (set_promptText "p" initialState)) st)
  = [mkAttachment "1" "doc1" "hello"].
Proof.
  intros st.
  apply (import_without_records_keeps_attachments sample_env Xml.standard_recovery
           (saveToXML (set_promptText "p" initialState)) st).
  reflexivity.
Defined.

(** C8, as it stands, fails: the export of a document without attachments
    is well-formed and holds no attachment record, and importing it into a
    document with one attachment leaves that attachment in the sequence. *)
Lemma import_without_records_counterexample :
  let st := set_attachments [mkAttachment "1" "doc1" "hello"] initialState in
  let text := saveToXML (set_promptText "p" initialState) in
  Xml.parse text <> None
  /\ Xml.document_querySelectorAll "attachment"
       (Xml.parseFromString Xml.standard_recovery text) = []
  /\ attachments (deserialize sample_env Xml.standard_recovery text st) <> [].
Proof.
  vm_compute. repeat split; discriminate.
Qed.

(** C10, as it stands, fails: after the add button and then the import of a
    file with one attachment, the selection is still the id of the attachment
    that the import has discarded; deleting this id, which no attachment
    carries, clears the selection. *)
Lemma delete_absent_id_counterexample :
  let st := fst (openFromXML (fun k => sample_env (k + 5)) Xml.standard_recovery
                   [mkFile "saved.xml" 200
                      (saveToXML (set_attachments [mkAttachment "1" "doc1" "hello"]
                                    initialState))]
                   (addEmptyAttachment (sample_env 0) initialState)) in
  ~ In (newId (sample_env 0)) (map id (attachments st))
  /\ selectedAttachmentId (deleteAttachment (newId (sample_env 0)) st)
     <> selectedAttachmentId st.
Proof.
  vm_compute. split; [intuition discriminate | discriminate].
Qed.

Lemma handle_clock a rt : clock (handle a rt) = clock rt.
Proof.
  destruct a; simpl; try reflexivity.
  unfold copyToClipboard. destruct (negb _), granted; reflexivity.
Qed.

Lemma handle_recomputes a rt : recomputes (handle a rt) = recomputes rt.
Proof.
  destruct a; simpl; try reflexivity.
  unfold copyToClipboard. destruct (negb _), granted; reflexivity.
Qed.

Lemma handle_timer a rt : timer (handle a rt) = timer rt.
Proof.
  destruct a; simpl; try reflexivity.
  unfold copyToClipboard. destruct (negb _), granted; reflexivity.
Qed.

Lemma handle_stable a rt : isOutputStable (handle a rt) = isOutputStable rt.
Proof.
  destruct a; simpl; try reflexivity.
  unfold copyToClipboard. destruct (negb _), granted; reflexivity.
Qed.

(** After an action that the watcher answers, one timeout is pending, due
    after the delay. *)
Lemma perform_triggered a rt :
  triggers a rt = true ->
  timer (perform a rt) = Some (clock rt + delay)
  /\ clock (perform a rt) = clock rt
  /\ recomputes (perform a rt) = recomputes rt
  /\ doc (perform a rt) = doc (handle a rt).
Proof.
  intros H. unfold perform. rewrite H. simpl.
  now rewrite handle_clock, handle_recomputes.
Qed.

Lemma advance_waiting t rt due :
  timer rt = Some due -> t < due ->
  timer (advance t rt) = Some due
  /\ clock (advance t rt) = Nat.max (clock rt) t
  /\ recomputes (advance t rt) = recomputes rt
  /\ doc (advance t rt) = doc rt.
Proof.
  intros H Hlt. unfold advance. rewrite H.
  destruct (Nat.leb_spec due t); [lia|]. simpl. auto.
Qed.

Lemma advance_firing t rt due :
  timer rt = Some due -> due <= t ->
  advance t rt
  = mkRuntime (doc rt) true (compile (promptText (doc rt)) (attachments (doc rt)))
      None (Nat.max due t) (clipboard rt)
      (recomputes rt ++ [(due, compile (promptText (doc rt)) (attachments (doc rt)))]).
Proof.
  intros H Hle. unfold advance. rewrite H.
  destruct (Nat.leb_spec due t); [|lia]. reflexivity.
Qed.

(** C4.  With the delay of 500, edits that trigger the watcher at [t],
    [t + 100] and [t + 200] and none after lead to exactly one
    recomputation: none has run by any time before [t + 700], and from
    [t + 700] on the log has grown by the one entry made at [t + 700], which
    holds the compilation of the document as the edit at [t + 200] left
    it. *)
Theorem debounce_recomputes_once (rt : Runtime) (t : nat) (a1 a2 a3 : action) :
  clock rt <= t ->
  let r0 := advance t rt in
  let r1 := perform a1 r0 in
  let r2 := perform a2 (advance (t + 100) r1) in
  let r3 := perform a3 (advance (t + 200) r2) in
  triggers a1 r0 = true ->
  triggers a2 (advance (t + 100) r1) = true ->
  triggers a3 (advance (t + 200) r2) = true ->
  (forall T, T < t + 700 -> recomputes (advance T r3) = recomputes r0)
  /\ (forall T, t + 700 <= T ->
      recomputes (advance T r3)
      = recomputes r0 ++ [(t + 700, compile (promptText (doc r3)) (attachments (doc r3)))]
      /\ debouncedOutputMarkdown (advance T r3)
         = compile (promptText (doc r3)) (attachments (doc r3))
      /\ isOutputStable (advance T r3) = true
      /\ timer (advance T r3) = None).
Proof.
  intros Hclock r0 r1 r2 r3 H1 H2 H3.
  assert (C0 : clock r0 = t).
  { unfold r0, advance. simpl.
    destruct (timer rt) as [due|]; [destruct (due <=? t) eqn:E|]; simpl; try lia.
    apply Nat.leb_le in E. lia. }
  destruct (perform_triggered _ _ H1) as (T1 & C1 & R1 & _). fold r1 in T1, C1, R1.
  rewrite C0 in T1. unfold delay in T1.
  destruct (advance_waiting (t + 100) r1 _ T1 ltac:(lia)) as (_ & C1' & R1' & _).
  destruct (perform_triggered _ _ H2) as (T2 & C2 & R2 & _). fold r2 in T2, C2, R2.
  rewrite C1', C1, C0 in T2. replace (Nat.max t (t + 100)) with (t + 100) in T2 by lia.
  unfold delay in T2.
  destruct (advance_waiting (t + 200) r2 _ T2 ltac:(lia)) as (_ & C2' & R2' & _).
  destruct (perform_triggered _ _ H3) as (T3 & C3 & R3 & _). fold r3 in T3, C3, R3.
  rewrite C2', C2, C1', C1, C0 in T3.
  replace (Nat.max (Nat.max t (t + 100)) (t + 200) + delay) with (t + 700) in T3
    by (unfold delay; lia).
  assert (R : recomputes r3 = recomputes r0) by congruence.
  split.
  - intros T HT.
    destruct (advance_waiting T r3 _ T3 HT) as (_ & _ & -> & _). exact R.
  - intros T HT. rewrite (advance_firing T r3 _ T3 HT). simpl.
    rewrite R. auto.
Qed.

Lemma debounce_recomputes_once_witness :
  let r1 := perform (Edit (SetPrompt "a")) (advance 1000 initialRuntime) in
  let r2 := perform (Edit (SetPrompt "ab")) (advance 1100 r1) in
  let r3 := perform (Edit (SetPrompt "abc")) (advance 1200 r2) in
  recomputes (advance 1699 r3) = []
  /\ recomputes (advance 1700 r3) = [(1700, compile "abc" [])]
  /\ recomputes (advance 5000 r3) = [(1700, compile "abc" [])].
Proof.
  intros r1 r2 r3.
  destruct (debounce_recomputes_once initialRuntime 1000
              (Edit (SetPrompt "a")) (Edit (SetPrompt "ab")) (Edit (SetPrompt "abc"))
              ltac:(simpl; lia) eq_refl eq_refl eq_refl) as [Hbefore Hafter].
  split; [|split].
  - apply (Hbefore 1699). simpl. lia.
  - apply (Hafter 1700). simpl. lia.
  - apply (Hafter 5000). simpl. lia.
Defined.

(** *** Copying *)

Lemma attachments_eqb_refl l : attachments_eqb l l = true.
Proof.
  induction l as [|a l IH]; simpl; [reflexivity|].
  unfold attachment_eqb. now rewrite !String.eqb_refl, IH.
Qed.

Lemma reachable_consistent rt : reachable rt -> consistent rt.
Proof.
  induction 1 as [|a rt _ IH|t rt _ IH]; unfold consistent in *.
  - reflexivity.
  - unfold perform. destruct (triggers a rt); simpl; [reflexivity|].
    now rewrite handle_timer, handle_stable.
  - unfold advance. destruct (timer rt) as [due|] eqn:E; simpl.
    + destruct (due <=? t); simpl; [reflexivity|]. now rewrite E.
    + now rewrite E.
Qed.

Lemma copy_leaves_document granted rt :
  doc (copyToClipboard granted rt) = doc rt.
Proof. unfold copyToClipboard. now destruct (negb _), granted. Qed.

Lemma perform_copy granted rt :
  perform (Copy granted) rt = copyToClipboard granted rt.
Proof.
  unfold perform, triggers. simpl. rewrite copy_leaves_document.
  now rewrite String.eqb_refl, attachments_eqb_refl.
Qed.

(** C5.  In every state the application reaches, the output is unstable
    exactly while a recomputation is pending; while one is pending, copying
    changes nothing, the clipboard included; and once the pending
    recomputation has run, copying (the browser granting the write) puts on
    the clipboard exactly the debounced output, which is the compilation of
    the document. *)
Theorem copy_waits_for_settled_output (rt : Runtime) :
  reachable rt ->
  (isOutputStable rt = false <-> exists due, timer rt = Some due)
  /\ (forall due, timer rt = Some due ->
      (forall granted, perform (Copy granted) rt = rt)
      /\ forall T, due <= T ->
         let settled := advance T rt in
         timer settled = None
         /\ isOutputStable settled = true
         /\ debouncedOutputMarkdown settled
            = compile (promptText (doc rt)) (attachments (doc rt))
         /\ clipboard (perform (Copy true) settled)
            = Some (compile (promptText (doc rt)) (attachments (doc rt)))
         /\ doc (perform (Copy true) settled) = doc rt).
Proof.
  intros Hr. apply reachable_consistent in Hr. unfold consistent in Hr. split.
  - destruct (timer rt) as [due|].
    + split; [now exists due | intros _; exact Hr].
    + rewrite Hr. split; [discriminate | intros [due Hdue]; discriminate].
  - intros due Hdue. rewrite Hdue in Hr. split.
    + intros granted. rewrite perform_copy. unfold copyToClipboard.
      now rewrite Hr.
    + intros T HT settled. subst settled.
      rewrite perform_copy, (advance_firing T rt due Hdue HT).
      repeat split; reflexivity.
Qed.

Lemma copy_waits_for_settled_output_witness :
  let rt := perform (Edit (SetPrompt "Summarize:")) initialRuntime in
  perform (Copy true) rt = rt
  /\ clipboard (perform (Copy true) (advance 500 rt)) = Some (compile "Summarize:" []).
Proof.
  intros rt.
  assert (Hr : reachable rt) by (apply reachable_perform, reachable_initial).
  destruct (copy_waits_for_settled_output rt Hr) as [_ H].
  destruct (H 500 eq_refl) as [Hrefused Hsettled].
  split.
  - apply Hrefused.
  - destruct (Hsettled 500 (le_n 500)) as (_ & _ & _ & Hclip & _). exact Hclip.
Defined.

(* ================================================================== *)
(** * Further properties of the component *)

(** ** Output compiler and counters *)

Lemma length_append (a b : string) :
  String.length (a +++ b) = String.length a + String.length b.
Proof. induction a as [|c a IH]; simpl; [reflexivity | now rewrite IH]. Qed.

Lemma compile_sections p atts :
  compile p atts
  = p +++ JS.LF +++ JS.LF
    +++ fold_right (fun a rest => section_of a +++ rest) EmptyString atts.
Proof.
  unfold compile. destruct atts as [|a atts]; [reflexivity|].
  cbv beta zeta. change (0 <? List.length (a :: atts)) with true. cbv iota.
  now rewrite fold_sections, !append_assoc.
Qed.

Lemma sections_app l1 l2 :
  fold_right (fun a rest => section_of a +++ rest) EmptyString (l1 ++ l2)
  = fold_right (fun a rest => section_of a +++ rest) EmptyString l1
    +++ fold_right (fun a rest => section_of a +++ rest) EmptyString l2.
Proof.
  induction l1 as [|a l1 IH]; [reflexivity|].
  cbn [fold_right app]. now rewrite IH, append_assoc.
Qed.

Lemma fold_left_add_length (l : list Attachment) (n : nat) :
  fold_left (fun total a => total + String.length (content a)) l n
  = n + list_sum (map (fun a => String.length (content a)) l).
Proof.
  revert n; induction l as [|a l IH]; intros n; simpl; [lia|].
  rewrite IH. lia.
Qed.

(** X1. The total shown to the user counts the prompt and the contents
    only: the compiled output is longer by the two newlines after the prompt
    and, for every attachment, by its name and the fifteen characters of its
    heading and fence. *)
Theorem total_length_undercounts_output (st : State) :
  String.length (compile (promptText st) (attachments st))
  = totalOutputLength st + 2
    + list_sum (map (fun a => String.length (name a) + 15) (attachments st)).
Proof.
  rewrite compile_sections. unfold totalOutputLength, promptLength,
    totalAttachmentsLength.
  rewrite fold_left_add_length, !length_append.
  change (String.length JS.LF) with 1.
  assert (H : forall l : list Attachment,
    String.length (fold_right (fun a rest => section_of a +++ rest) EmptyString l)
    = list_sum (map (fun a => String.length (content a)) l)
      + list_sum (map (fun a => String.length (name a) + 15) l)).
  { induction l as [|a l IH]; [reflexivity|].
    cbn [fold_right map list_sum]. rewrite length_append, IH.
    unfold section_of. rewrite !length_append.
    change (String.length JS.LF) with 1. simpl String.length. unfold list_sum in *. lia. }
  rewrite H. simpl. lia.
Qed.

(** X2. Attachments added at the end of the sequence only append to the
    compiled output: the output for [l1 ++ l2] is the output for [l1]
    followed by the sections of [l2]. *)
Theorem compile_appends_sections (p : string) (l1 l2 : list Attachment) :
  compile p (l1 ++ l2)
  = compile p l1
    +++ fold_right (fun a rest => section_of a +++ rest) EmptyString l2.
Proof.
  rewrite !compile_sections. rewrite sections_app, !append_assoc. reflexivity.
Qed.

(** ** Adding, selecting, editing and deleting *)

Lemma find_app_last {A : Type} (p : A -> bool) (l : list A) (x : A) :
  p x = true -> exists y, find p (l ++ [x]) = Some y /\ p y = true.
Proof.
  intros Hx. induction l as [|z l IH]; simpl.
  - rewrite Hx. now exists x.
  - destruct (p z) eqn:Hz; [now exists z | exact IH].
Qed.

Lemma find_absent i (l : list Attachment) :
  ~ In i (map id l) -> find (has_id i) l = None.
Proof.
  intros H. destruct (find (has_id i) l) as [a|] eqn:E; [|reflexivity].
  contradiction H. now apply find_has_id with a.
Qed.

Lemma find_app_fresh i (l : list Attachment) a :
  ~ In i (map id l) -> id a = i -> find (has_id i) (l ++ [a]) = Some a.
Proof.
  intros Hnew Ha. induction l as [|z l IH]; simpl.
  - apply has_id_true in Ha. now rewrite Ha.
  - simpl in Hnew. destruct (has_id i z) eqn:Hz.
    + apply has_id_true in Hz. tauto.
    + apply IH. tauto.
Qed.

Lemma addEmptyAttachment_attachments e st :
  attachments (addEmptyAttachment e st)
  = attachments st
    ++ [mkAttachment (newId e)
          ("Untitled_" +++ JS.nat_toString (List.length (attachments st) + 1))
          EmptyString].
Proof. unfold addEmptyAttachment. now rewrite selectAttachment_attachments. Qed.

(** X3. [addEmptyAttachment] appends exactly one attachment, with the
    generated id, the name [Untitled_<count + 1>] and empty content, leaves
    the prompt and the attachments already present as they were, and selects
    the generated id; when that id is new to the sequence the editor shows
    the empty content. *)
Theorem add_empty_appends_and_selects (e : Env) (st : State) :
  attachments (addEmptyAttachment e st)
  = attachments st
    ++ [mkAttachment (newId e)
          ("Untitled_" +++ JS.nat_toString (List.length (attachments st) + 1))
          EmptyString]
  /\ selectedAttachmentId (addEmptyAttachment e st) = Some (newId e)
  /\ promptText (addEmptyAttachment e st) = promptText st
  /\ (~ In (newId e) (map id (attachments st)) ->
      attachmentContent (addEmptyAttachment e st) = EmptyString).
Proof.
  unfold addEmptyAttachment, selectAttachment, untitled.
  set (a := mkAttachment (newId e) _ EmptyString).
  cbn [push attachments set_attachments].
  destruct (find_app_last (has_id (newId e)) (attachments st) a) as (y & Hy & _).
  { apply has_id_true. reflexivity. }
  rewrite Hy. cbn. repeat split; try reflexivity.
  intros Hnew.
  rewrite (find_app_fresh _ _ a Hnew eq_refl) in Hy. now injection Hy as <-.
Qed.

Lemma add_empty_appends_and_selects_witness :
  selectedAttachmentId (addEmptyAttachment (sample_env 0) initialState)
  = Some (newId (sample_env 0))
  /\ attachmentContent (addEmptyAttachment (sample_env 0) initialState) = EmptyString.
Proof.
  destruct (add_empty_appends_and_selects (sample_env 0) initialState)
    as (_ & Hsel & _ & Hcontent).
  split; [exact Hsel|]. apply Hcontent. simpl. tauto.
Defined.

Lemma run_app cs1 cs2 st : run (cs1 ++ cs2) st = run cs2 (run cs1 st).
Proof. unfold run. apply fold_left_app. Qed.

(** X4. Starting from the empty document, [n] clicks on the add button give
    the attachments the names [Untitled_1], ..., [Untitled_n], in this
    order, all with empty content. *)
Theorem add_empty_names_count_up (es : list Env) :
  map name (attachments (run (map AddEmpty es) initialState))
  = map (fun k => "Untitled_" +++ JS.nat_toString k) (seq 1 (List.length es))
  /\ Forall (fun a => content a = EmptyString)
       (attachments (run (map AddEmpty es) initialState)).
Proof.
  induction es as [|e es IH] using rev_ind; [split; [reflexivity | constructor]|].
  destruct IH as [IHn IHc].
  rewrite map_app, run_app. cbn [map run fold_left exec].
  rewrite addEmptyAttachment_attachments. split.
  - rewrite map_app, IHn, length_app, seq_app, map_app. cbn [map List.length seq].
    assert (Hlen : List.length (attachments (run (map AddEmpty es) initialState))
                   = List.length es).
    { rewrite <- (length_map name), IHn, length_map, length_seq. reflexivity. }
    rewrite Hlen. replace (1 + List.length es) with (List.length es + 1) by lia.
    reflexivity.
  - apply Forall_app. split; [assumption | now constructor].
Qed.

(** X5. [selectAttachment] with an id that no attachment carries changes
    nothing at all; with an id that is present it selects that id and loads
    into the editor the content of the first attachment carrying it, and it
    never changes the attachments or the prompt. *)
Theorem select_loads_content_or_does_nothing (i : string) (st : State) :
  (~ In i (map id (attachments st)) -> selectAttachment i st = st)
  /\ (forall a, find (has_id i) (attachments st) = Some a ->
      selectedAttachmentId (selectAttachment i st) = Some i
      /\ attachmentContent (selectAttachment i st) = content a)
  /\ attachments (selectAttachment i st) = attachments st
  /\ promptText (selectAttachment i st) = promptText st.
Proof.
  unfold selectAttachment. split; [|split; [|split]].
  - intros H. now rewrite (find_absent _ _ H).
  - intros a Ha. rewrite Ha. split; reflexivity.
  - now destruct (find _ _).
  - now destruct (find _ _).
Qed.

Lemma select_loads_content_or_does_nothing_witness :
  let st := set_attachments [mkAttachment "17a" "notes" "text"] initialState in
  selectAttachment "99z" st = st
  /\ attachmentContent (selectAttachment "17a" st) = "text".
Proof.
  intros st. split.
  - apply (proj1 (select_loads_content_or_does_nothing "99z" st)).
    simpl. intuition discriminate.
  - apply (proj1 (proj2 (select_loads_content_or_does_nothing "17a" st))
             (mkAttachment "17a" "notes" "text")).
    reflexivity.
Defined.




Lemma find_findIndex {A : Type} (p : A -> bool) (l : list A) :
  find p l = match JS.findIndex p l with
             | Some k => nth_error l k
             | None => None
             end.
Proof.
  induction l as [|x l IH]; simpl; [reflexivity|].
  destruct (p x); [reflexivity|]. rewrite IH.
  now destruct (JS.findIndex p l).
Qed.

Lemma findIndex_update_at i (f : Attachment -> Attachment) (l : list Attachment) k :
  (forall a, id (f a) = id a) ->
  JS.findIndex (has_id i) (JS.update_at k f l) = JS.findIndex (has_id i) l.
Proof.
  intros Hf. revert k; induction l as [|x l IH]; intros [|k]; simpl;
    try reflexivity.
  - unfold has_id. now rewrite Hf.
  - now rewrite IH.
Qed.

(** X7. Typing into the attachment editor stores the text in the first
    attachment that carries the selected id, and in no other: its id and
    name stay, every other attachment stays, the selection stays, and
    looking the selected id up afterwards gives the typed content.  With
    nothing selected the attachments are left as they were. *)
Theorem typed_content_is_stored (c : string) (st : State) :
  attachmentContent (exec (TypeContent c) st) = c
  /\ selectedAttachmentId (exec (TypeContent c) st) = selectedAttachmentId st
  /\ (selectedAttachmentId st = None ->
      attachments (exec (TypeContent c) st) = attachments st)
  /\ (forall i k a,
      selectedAttachmentId st = Some i -> i <> EmptyString ->
      JS.findIndex (has_id i) (attachments st) = Some k ->
      nth_error (attachments st) k = Some a ->
      nth_error (attachments (exec (TypeContent c) st)) k
      = Some (mkAttachment (id a) (name a) c)
      /\ (forall j, j <> k ->
          nth_error (attachments (exec (TypeContent c) st)) j
          = nth_error (attachments st) j)
      /\ find (has_id i) (attachments (exec (TypeContent c) st))
         = Some (mkAttachment (id a) (name a) c)).
Proof.
  cbn [exec]. unfold updateAttachmentContent.
  cbn [selectedAttachmentId attachments set_attachmentContent].
  split; [|split; [|split]].
  - destruct (JS.truthy _); [destruct (JS.findIndex _ _)|]; reflexivity.
  - destruct (JS.truthy _); [destruct (JS.findIndex _ _)|]; reflexivity.
  - intros ->. reflexivity.
  - intros i k a Hsel Hi Hk Ha. rewrite Hsel. cbn [JS.truthy].
    apply String.eqb_neq in Hi. rewrite Hi. cbn [negb].
    rewrite findIndex_strict_eq, Hk. cbn [attachments set_attachments].
    pose proof (update_at_nth (set_content c) _ _ _ Ha) as Hn.
    split; [exact Hn|]. split.
    + intros j Hj. now apply update_at_other.
    + rewrite find_findIndex, findIndex_update_at by reflexivity.
      now rewrite Hk.
Qed.

Lemma typed_content_is_stored_witness :
  let st := selectAttachment "18b"
              (set_attachments [mkAttachment "17a" "notes" "text";
                                mkAttachment "18b" "todo" "more"] initialState) in
  find (has_id "18b") (attachments (exec (TypeContent "done") st))
  = Some (mkAttachment "18b" "todo" "done")
  /\ attachments (exec (TypeContent "lost") initialState) = [].
Proof.
  intros st. split.
  - destruct (typed_content_is_stored "done" st) as (_ & _ & _ & H).
    destruct (H "18b" 1 (mkAttachment "18b" "todo" "more") eq_refl
                ltac:(discriminate) eq_refl eq_refl) as (_ & _ & Hfind).
    exact Hfind.
  - destruct (typed_content_is_stored "lost" initialState) as (_ & _ & H & _).
    apply H. reflexivity.
Defined.

(** X8. Pasting from the clipboard adds nothing when the read is refused
    or gives the empty text; otherwise it appends one attachment that holds
    the text under the name [Untitled_<count + 1>] and the timestamp as id,
    and, unlike the add button, leaves the selection and the editor as they
    were. *)
Theorem paste_appends_without_selecting (e : Env) (st : State) :
  addFromClipboard e None st = st
  /\ addFromClipboard e (Some EmptyString) st = st
  /\ (forall text, text <> EmptyString ->
      attachments (addFromClipboard e (Some text) st)
      = attachments st
        ++ [mkAttachment (JS.N_toString (now_ms e))
              ("Untitled_" +++ JS.nat_toString (List.length (attachments st) + 1))
              text]
      /\ selectedAttachmentId (addFromClipboard e (Some text) st)
         = selectedAttachmentId st
      /\ attachmentContent (addFromClipboard e (Some text) st)
         = attachmentContent st
      /\ promptText (addFromClipboard e (Some text) st) = promptText st).
Proof.
  split; [reflexivity|]. split; [reflexivity|].
  intros text Ht. unfold addFromClipboard.
  apply String.eqb_neq in Ht. rewrite Ht. cbn [negb].
  repeat split.
Qed.

Lemma paste_appends_without_selecting_witness :
  attachments (addFromClipboard (sample_env 0) (Some "copied") initialState)
  = [mkAttachment "1700000000000" "Untitled_1" "copied"].
Proof.
  apply (proj2 (proj2 (paste_appends_without_selecting (sample_env 0) initialState))
           "copied").
  discriminate.
Defined.

(** X9. The id of a pasted attachment is the timestamp alone: two pastes
    at the same reading of the clock carry the same id, and deleting that id
    removes both of them. *)
Theorem pastes_of_one_instant_share_an_id (e : Env) (t1 t2 : string) (st : State) :
  t1 <> EmptyString -> t2 <> EmptyString ->
  let st2 := addFromClipboard e (Some t2) (addFromClipboard e (Some t1) st) in
  map id (attachments st2)
  = map id (attachments st) ++ [clipboardId e; clipboardId e]
  /\ attachments (deleteAttachment (clipboardId e) st2)
     = filter (fun a => negb (has_id (clipboardId e) a)) (attachments st).
Proof.
  intros H1 H2 st2. subst st2. unfold addFromClipboard.
  apply String.eqb_neq in H1, H2. rewrite H1, H2. cbn [negb].
  unfold deleteAttachment, push. cbn [attachments set_attachments selectedAttachmentId].
  split.
  - rewrite !map_app, <- app_assoc. reflexivity.
  - assert (Hf : filter (fun a => negb (has_id (clipboardId e) a))
             ((attachments st ++ [mkAttachment (clipboardId e) (untitled st) t1])
              ++ [mkAttachment (clipboardId e)
                    (untitled (set_attachments
                       (attachments st ++ [mkAttachment (clipboardId e) (untitled st) t1]) st))
                    t2])
             = filter (fun a => negb (has_id (clipboardId e) a)) (attachments st)).
    { rewrite !filter_app. cbn [filter]. unfold has_id at 2 3. cbn [id].
      rewrite String.eqb_refl. cbn [negb]. now rewrite !app_nil_r. }
    destruct (JS.strict_eq _ _); cbn [attachments set_attachments set_attachmentContent
      set_attachmentName set_selectedAttachmentId]; exact Hf.
Qed.

Lemma pastes_of_one_instant_share_an_id_witness :
  attachments (deleteAttachment "1700000000000"
     (addFromClipboard (sample_env 0) (Some "second")
        (addFromClipboard (sample_env 0) (Some "first") initialState)))
  = [].
Proof.
  apply (proj2 (pastes_of_one_instant_share_an_id (sample_env 0) "first" "second"
                  initialState ltac:(discriminate) ltac:(discriminate))).
Defined.

(** ** Dropped files *)

Lemma handleDrop_app files1 files2 st :
  handleDrop (files1 ++ files2) st = handleDrop files2 (handleDrop files1 st).
Proof. unfold handleDrop. apply fold_left_app. Qed.

(** X10. Dropping files appends one attachment for each file of at most
    1 MiB (1048576 bytes, the bound included), named after the file and
    holding its text, in the order the reads finish, and skips every larger
    file; the attachments already present, the prompt and the selection are
    left as they were. *)
Theorem dropped_files_within_limit_are_appended
    (files : list (Env * File)) (st : State) :
  attachments (handleDrop files st)
  = attachments st
    ++ map (fun ef => mkAttachment (newId (fst ef)) (file_name (snd ef))
                        (file_text (snd ef)))
         (filter (fun ef => (file_size (snd ef) <=? 1048576)%N) files)
  /\ promptText (handleDrop files st) = promptText st
  /\ selectedAttachmentId (handleDrop files st) = selectedAttachmentId st.
Proof.
  revert st. induction files as [|[e f] files IH]; intros st.
  - cbn. now rewrite app_nil_r.
  - change (handleDrop ((e, f) :: files) st)
      with (handleDrop files (handleDropFile e f st)).
    destruct (IH (handleDropFile e f st)) as (Ha & Hp & Hs).
    rewrite Ha, Hp, Hs. unfold handleDropFile, maxSize. cbn [filter fst snd].
    rewrite N.ltb_antisym.
    destruct (file_size f <=? 1024 * 1024)%N eqn:E;
      change (1024 * 1024)%N with 1048576%N in E; rewrite E; cbn [negb].
    + cbn [push attachments set_attachments promptText selectedAttachmentId map].
      rewrite or_else_empty, <- app_assoc. repeat split.
    + repeat split.
Qed.

Lemma untitled_nonempty st : untitled st <> EmptyString.
Proof. discriminate. Qed.

Lemma push_names_nonempty a st :
  name a <> EmptyString -> names_nonempty st -> names_nonempty (push a st).
Proof.
  intros Ha H. unfold names_nonempty, push. simpl.
  apply Forall_app. split; [assumption | now constructor].
Qed.

Lemma exec_names_nonempty c st :
  drops_named_files c -> names_nonempty st -> names_nonempty (exec c st).
Proof.
  intros Hc H. destruct c; simpl; try exact H.
  - unfold addEmptyAttachment, names_nonempty.
    rewrite selectAttachment_attachments.
    apply push_names_nonempty; [apply untitled_nonempty | exact H].
  - unfold addFromClipboard. destruct readText as [text|]; [|assumption].
    destruct (negb _); [|assumption].
    apply push_names_nonempty; [apply untitled_nonempty | exact H].
  - simpl in Hc. unfold handleDrop. revert st H.
    induction Hc as [|[e f] files Hf _ IH]; intros st H; simpl; [assumption|].
    apply IH. unfold handleDropFile. simpl.
    destruct (maxSize <? file_size f)%N; [assumption|].
    apply push_names_nonempty; [exact Hf | exact H].
  - unfold names_nonempty. now rewrite selectAttachment_attachments.
  - unfold startEditingName, names_nonempty. simpl.
    now rewrite selectAttachment_attachments.
  - unfold saveAttachmentName.
    destruct (JS.truthy _); [|assumption].
    destruct (JS.findIndex _ _); [|exact H].
    destruct (negb _) eqn:E; [|exact H].
    unfold names_nonempty. simpl.
    apply negb_true_iff, String.eqb_neq in E.
    clear - H E. unfold names_nonempty in H.
    revert n; induction H as [|x l Hx Hl IH]; intros [|n]; simpl;
      try constructor; auto.
  - unfold updateAttachmentContent. simpl.
    destruct (JS.truthy _); [|assumption].
    destruct (JS.findIndex _ _); [|exact H].
    unfold names_nonempty. simpl. now apply update_at_Forall.
  - unfold deleteAttachment, names_nonempty in *. simpl.
    assert (Hf : Forall (fun a => name a <> EmptyString)
                   (filter (fun a => negb (has_id i a)) (attachments st))).
    { apply Forall_forall. intros a Ha. apply filter_In in Ha as [Ha _].
      rewrite Forall_forall in H. now apply H. }
    now destruct (JS.strict_eq _ _).
  - unfold dragOver. destruct (negb _); exact H.
  - unfold drop, names_nonempty. simpl.
    destruct (JS.truthy (draggedItem st) && JS.truthy (draggedOverItem st));
      [|assumption].
    destruct (draggedItem st) as [d|]; [|assumption].
    destruct (draggedOverItem st) as [t|]; [|assumption].
    simpl. apply Forall_forall. intros a Ha.
    unfold names_nonempty in H. rewrite Forall_forall in H. apply H.
    now apply (Permutation_in _ (reorder_perm (attachments st) d t)).
Qed.

(** X11. No editing command ever gives an attachment the empty name: from
    the empty document, after any sequence of commands in which the dropped
    files have names, every attachment has a non-empty name (a rename to a
    blank name being refused and every other name being trimmed). *)
Theorem names_are_never_empty (cs : list command) :
  Forall drops_named_files cs ->
  Forall (fun a => name a <> EmptyString) (attachments (run cs initialState)).
Proof.
  intros Hcs. change (names_nonempty (run cs initialState)). unfold run.
  generalize initialState, (Forall_nil _ : names_nonempty initialState).
  induction Hcs as [|c cs Hc _ IH]; intros st Hst; simpl; [assumption|].
  apply IH. now apply exec_names_nonempty.
Qed.

Lemma names_are_never_empty_witness :
  Forall (fun a => name a <> EmptyString)
    (attachments
       (run [AddEmpty (sample_env 0);
             StartEditingName (newId (sample_env 0)) "Untitled_1";
             TypeName "   "; SaveName;
             DropFiles [(sample_env 1, mkFile "a.txt" 3 "abc")]]
          initialState)).
Proof.
  apply names_are_never_empty.
  repeat constructor. discriminate.
Defined.

(** ** Dragging *)

(** X12. Whatever the state of the drag, [drop] neither loses nor
    duplicates an attachment (the sequence afterwards is a rearrangement of
    the sequence before), it ends the drag, and it leaves the prompt and the
    selection as they were. *)
Theorem drop_rearranges_and_ends_drag (st : State) :
  Permutation (attachments (drop st)) (attachments st)
  /\ List.length (attachments (drop st)) = List.length (attachments st)
  /\ draggedItem (drop st) = None
  /\ draggedOverItem (drop st) = None
  /\ promptText (drop st) = promptText st
  /\ selectedAttachmentId (drop st) = selectedAttachmentId st.
Proof.
  assert (H : Permutation (attachments (drop st)) (attachments st)
              /\ promptText (drop st) = promptText st
              /\ selectedAttachmentId (drop st) = selectedAttachmentId st).
  { unfold drop.
    destruct (JS.truthy (draggedItem st) && JS.truthy (draggedOverItem st));
      [|repeat split; reflexivity].
    destruct (draggedItem st) as [d|]; [|repeat split; reflexivity].
    destruct (draggedOverItem st) as [t|]; [|repeat split; reflexivity].
    cbn. split; [apply reorder_perm | split; reflexivity]. }
  destruct H as (Hp & Hprompt & Hsel).
  split; [exact Hp|]. split; [now apply Permutation_length|].
  split; [reflexivity|]. split; [reflexivity|]. now split.
Qed.

(** X13. A whole drag, begun while no other drag is under way: dragging
    [d] over another item [t] and dropping performs [reorder d t]; a drop
    after the pointer has left the target, and a drop of the item on itself,
    leave the sequence as it was. *)
Theorem drag_gesture_reorders (d t : string) (st : State) :
  d <> EmptyString -> t <> EmptyString ->
  (d <> t ->
   attachments (drop (dragOver t (dragStart d st))) = reorder d t (attachments st))
  /\ attachments (drop (dragLeave (dragOver t (dragStart d st)))) = attachments st
  /\ (draggedOverItem st = None ->
      attachments (drop (dragOver d (dragStart d st))) = attachments st).
Proof.
  intros Hd Ht. apply String.eqb_neq in Hd, Ht. split; [|split].
  - intros Hdt. apply String.eqb_neq in Hdt.
    unfold drop, dragOver, dragStart. cbn. rewrite Hdt. cbn. rewrite Hd, Ht.
    reflexivity.
  - unfold drop, dragLeave. cbn. rewrite andb_false_r.
    unfold dragOver, dragStart. now destruct (negb _).
  - intros Hnone. unfold drop, dragOver, dragStart. cbn.
    rewrite String.eqb_refl. cbn. rewrite Hnone. cbn. now rewrite andb_false_r.
Qed.

Lemma drag_gesture_reorders_witness :
  let A := mkAttachment "a" "A" "x" in
  let B := mkAttachment "b" "B" "y" in
  let C := mkAttachment "c" "C" "z" in
  let st := set_attachments [A; B; C] initialState in
  attachments (drop (dragOver "a" (dragStart "c" st))) = reorder "c" "a" [A; B; C]
  /\ attachments (drop (dragOver "c" (dragStart "c" st))) = [A; B; C].
Proof.
  intros A B C st. split.
  - apply (proj1 (drag_gesture_reorders "c" "a" st ltac:(discriminate)
                    ltac:(discriminate))).
    discriminate.
  - apply (proj2 (proj2 (drag_gesture_reorders "c" "c" st ltac:(discriminate)
                           ltac:(discriminate)))).
    reflexivity.
Defined.

(** ** Export and import *)

Lemma attachments_xml_of_pairs (l1 l2 : list Attachment) :
  map (fun a => (name a, content a)) l1 = map (fun a => (name a, content a)) l2 ->
  List.length l1 = List.length l2
  /\ fold_right (fun a r => attachment_xml a +++ r) EmptyString l1
     = fold_right (fun a r => attachment_xml a +++ r) EmptyString l2.
Proof.
  revert l2; induction l1 as [|a l1 IH]; intros [|b l2] H; try discriminate.
  - split; reflexivity.
  - cbn [map] in H. injection H as Hn Hc Hrest.
    destruct (IH l2 Hrest) as [Hlen Hfold]. split; [simpl; congruence|].
    cbn [fold_right]. rewrite Hfold. unfold attachment_xml. now rewrite Hn, Hc.
Qed.

Lemma saveToXML_pairs (st1 st2 : State) :
  promptText st1 = promptText st2 ->
  map (fun a => (name a, content a)) (attachments st1)
  = map (fun a => (name a, content a)) (attachments st2) ->
  saveToXML st1 = saveToXML st2.
Proof.
  intros Hp Ha.
  destruct (attachments_xml_of_pairs _ _ Ha) as [Hlen Hfold].
  unfold saveToXML. cbv zeta. rewrite Hp, Hlen.
  destruct (0 <? List.length (attachments st2)); [|reflexivity].
  now rewrite !fold_left_append, Hfold.
Qed.

(** X14. The exported text is made of the prompt and of the names and
    contents of the attachments in their order, and of nothing else: two
    documents that agree on these export to the same text, whatever their
    ids, selections and editing states are. *)
Theorem export_ignores_ids_and_selection (st1 st2 : State) :
  promptText st1 = promptText st2 ->
  pairs st1 = pairs st2 ->
  saveToXML st1 = saveToXML st2.
Proof. unfold pairs. apply saveToXML_pairs. Qed.

Lemma export_ignores_ids_and_selection_witness :
  saveToXML (selectAttachment "17a"
               (set_attachments [mkAttachment "17a" "notes" "text"] initialState))
  = saveToXML (set_attachments [mkAttachment "99z" "notes" "text"] initialState).
Proof.
  apply export_ignores_ids_and_selection; reflexivity.
Defined.

(** X15. Exporting what an import of an export has loaded gives the same
    text again: for a document that exports verbatim and has at least one
    attachment, export, import (into any document) and export is the same
    as export. *)
Theorem export_import_export
    (es : nat -> Env) (recover : string -> Xml.node) (doc st : State) :
  exportable doc ->
  attachments doc <> [] ->
  saveToXML (deserialize es recover (saveToXML doc) st) = saveToXML doc.
Proof.
  intros H Hne. unfold deserialize. rewrite (onload_export es recover doc st H).
  destruct (attachments doc) as [|a l] eqn:E; [contradiction|]. cbn [fst].
  apply saveToXML_pairs; [reflexivity|].
  cbn [attachments set_attachments]. rewrite <- E. apply fresh_copies_pairs.
Qed.

Lemma export_import_export_witness :
  let doc := set_attachments
               [mkAttachment "1" "doc1" "hello"; mkAttachment "2" "notes" "a]]b > c"]
               (set_promptText "Summarize <this> & that:" initialState) in
  saveToXML (deserialize sample_env Xml.standard_recovery (saveToXML doc) initialState)
  = saveToXML doc.
Proof.
  intros doc. apply export_import_export.
  - split; [reflexivity|].
    repeat constructor; try reflexivity; discriminate.
  - discriminate.
Defined.

Lemma load_records_eq es els : forall k st,
  load_records es k els st = set_attachments (attachments (load_records es k els st)) st.
Proof.
  induction els as [|el els IH]; intros k st; cbn [load_records].
  - now destruct st.
  - destruct (Xml.querySelector "name" el), (Xml.querySelector "content" el);
      try apply IH.
    rewrite IH at 1. reflexivity.
Qed.

Lemma load_records_attachments es els : forall k st,
  attachments (load_records es k els st)
  = attachments st
    ++ attachments (load_records es k els (set_attachments [] initialState)).
Proof.
  induction els as [|el els IH]; intros k st; cbn [load_records].
  - cbn. now rewrite app_nil_r.
  - destruct (Xml.querySelector "name" el), (Xml.querySelector "content" el);
      try apply IH.
    rewrite IH. rewrite (IH _ (push _ (set_attachments [] initialState))).
    cbn [push attachments set_attachments]. now rewrite <- app_assoc.
Qed.

(** What [onload] leaves in the state. *)
Lemma onload_state es recover text st :
  fst (onload es recover text st)
  = let els := Xml.document_querySelectorAll "attachment"
                 (Xml.parseFromString recover text) in
    let st1 :=
      match Xml.document_querySelector "prompt" (Xml.parseFromString recover text) with
      | Some el => set_promptText (JS.or_else (Xml.textContent el) EmptyString) st
      | None => st
      end in
    if 0 <? List.length els
    then set_attachments
           (attachments (load_records es 0 els (set_attachments [] initialState))) st1
    else st1.
Proof.
  unfold onload, onload_body. cbv zeta.
  destruct (0 <? List.length _); [|reflexivity].
  cbn [try_catch fst]. rewrite load_records_eq, load_records_attachments.
  now destruct (Xml.document_querySelector _ _).
Qed.

(** X16. The import reads the first chosen file only, and only if it is at
    most 1 MiB (1048576 bytes, the bound included): with no file nothing
    happens; a larger file is refused with a notice that names it, is never
    parsed and changes nothing; a file within the limit is handed to the
    parser whatever else was chosen with it. *)
Theorem import_size_gate
    (es : nat -> Env) (recover : string -> Xml.node)
    (file : File) (others : list File) (st : State) :
  openFromXML es recover [] st = (st, [])
  /\ ((1048576 < file_size file)%N ->
      openFromXML es recover (file :: others) st
      = (st, [FileTooLarge (file_name file)]))
  /\ ((file_size file <= 1048576)%N ->
      openFromXML es recover (file :: others) st
      = onload es recover (file_text file) st).
Proof.
  split; [reflexivity|]. unfold openFromXML, maxSize.
  change (1024 * 1024)%N with 1048576%N. split; intros H.
  - apply N.ltb_lt in H. now rewrite H.
  - apply N.leb_le in H. rewrite N.ltb_antisym, H. reflexivity.
Qed.

Lemma import_size_gate_witness :
  let st := set_promptText "kept" initialState in
  openFromXML sample_env Xml.standard_recovery
    [mkFile "big.xml" 1048577 "<promptBuilder><prompt>new</prompt></promptBuilder>"] st
  = (st, [FileTooLarge "big.xml"])
  /\ openFromXML sample_env Xml.standard_recovery
       [mkFile "edge.xml" 1048576 "<promptBuilder><prompt>new</prompt></promptBuilder>"]
       st
     = onload sample_env Xml.standard_recovery
         "<promptBuilder><prompt>new</prompt></promptBuilder>" st.
Proof.
  intros st. split.
  - apply (proj1 (proj2 (import_size_gate sample_env Xml.standard_recovery
      (mkFile "big.xml" 1048577 "<promptBuilder><prompt>new</prompt></promptBuilder>")
      [] st))).
    reflexivity.
  - apply (proj2 (proj2 (import_size_gate sample_env Xml.standard_recovery
      (mkFile "edge.xml" 1048576 "<promptBuilder><prompt>new</prompt></promptBuilder>")
      [] st))).
    discriminate.
Defined.

(** X17. An import never touches the selection, the editor, the name being
    edited or the drag: whatever the file holds, they are after the import
    what they were before, also when the import has replaced every
    attachment. *)
Theorem import_leaves_selection_and_editor
    (es : nat -> Env) (recover : string -> Xml.node) (files : list File) (st : State) :
  let st' := fst (openFromXML es recover files st) in
  selectedAttachmentId st' = selectedAttachmentId st
  /\ attachmentContent st' = attachmentContent st
  /\ attachmentName st' = attachmentName st
  /\ editingAttachmentId st' = editingAttachmentId st
  /\ editingAttachmentName st' = editingAttachmentName st
  /\ draggedItem st' = draggedItem st
  /\ draggedOverItem st' = draggedOverItem st.
Proof.
  cbv zeta. unfold openFromXML.
  destruct files as [|file others]; [repeat split|].
  destruct (maxSize <? file_size file)%N; [repeat split|].
  rewrite onload_state. cbv zeta.
  destruct (0 <? List.length _), (Xml.document_querySelector _ _); repeat split.
Qed.

(** X18. When the imported text holds at least one attachment element, the
    attachments after the import are those the text gives and no others:
    the result is the same as that of importing into the empty document,
    nothing of the earlier sequence being kept. *)
Theorem import_with_records_discards_previous
    (es : nat -> Env) (recover : string -> Xml.node) (text : string) (st : State) :
  Xml.document_querySelectorAll "attachment" (Xml.parseFromString recover text) <> [] ->
  attachments (deserialize es recover text st)
  = attachments (deserialize es recover text initialState).
Proof.
  intros H. unfold deserialize. rewrite !onload_state. cbv zeta.
  destruct (Xml.document_querySelectorAll _ _) as [|el els]; [contradiction|].
  change (0 <? List.length (el :: els)) with true. cbv iota.
  now destruct (Xml.document_querySelector _ _).
Qed.

Lemma import_with_records_discards_previous_witness :
  let doc := set_attachments [mkAttachment "1" "doc1" "hello"] initialState in
  let st := set_attachments [mkAttachment "7" "old" "gone"] initialState in
  attachments (deserialize sample_env Xml.standard_recovery (saveToXML doc) st)
  = attachments (deserialize sample_env Xml.standard_recovery (saveToXML doc) initialState).
Proof.
  intros doc st. apply import_with_records_discards_previous.
  vm_compute. discriminate.
Defined.

(** X19. The prompt after an import: when the text holds a prompt element,
    the prompt becomes the text content of the first one (the empty string
    when it has none); when it holds no prompt element, the prompt is left
    as it was. *)
Theorem import_sets_prompt_only_if_present
    (es : nat -> Env) (recover : string -> Xml.node) (text : string) (st : State) :
  (forall el,
     Xml.document_querySelector "prompt" (Xml.parseFromString recover text) = Some el ->
     promptText (deserialize es recover text st) = Xml.textContent el)
  /\ (Xml.document_querySelector "prompt" (Xml.parseFromString recover text) = None ->
      promptText (deserialize es recover text st) = promptText st).
Proof.
  unfold deserialize. rewrite onload_state. cbv zeta.
  split.
  - intros el ->. rewrite or_else_empty. now destruct (0 <? List.length _).
  - intros ->. now destruct (0 <? List.length _).
Qed.

Lemma import_sets_prompt_only_if_present_witness :
  let st := set_promptText "kept" initialState in
  promptText (deserialize sample_env Xml.standard_recovery
                "<promptBuilder><prompt>new</prompt></promptBuilder>" st)
  = "new"
  /\ promptText (deserialize sample_env Xml.standard_recovery
                   "<promptBuilder><attachments/></promptBuilder>" st)
     = "kept".
Proof.
  intros st. split.
  - apply (proj1 (import_sets_prompt_only_if_present sample_env Xml.standard_recovery
             "<promptBuilder><prompt>new</prompt></promptBuilder>" st)
             (Xml.Element "prompt" [Xml.Text "new"])).
    reflexivity.
  - apply (proj2 (import_sets_prompt_only_if_present sample_env Xml.standard_recovery
             "<promptBuilder><attachments/></promptBuilder>" st)).
    reflexivity.
Defined.

Lemma or_else_untitled s : JS.or_else s "Untitled" <> EmptyString.
Proof.
  unfold JS.or_else. destruct (String.eqb_spec s EmptyString); [discriminate | assumption].
Qed.

Lemma load_records_fresh es els : forall k,
  let complete el :=
    match Xml.querySelector "name" el, Xml.querySelector "content" el with
    | Some _, Some _ => true
    | _, _ => false
    end in
  let loaded := attachments (load_records es k els (set_attachments [] initialState)) in
  map id loaded
  = map (fun j => newId (es j)) (seq k (List.length (filter complete els)))
  /\ Forall (fun a => name a <> EmptyString) loaded.
Proof.
  induction els as [|el els IH]; intros k; cbv zeta; cbn [load_records filter].
  - split; [reflexivity | constructor].
  - destruct (Xml.querySelector "name" el) as [n|],
             (Xml.querySelector "content" el) as [c|]; try apply IH.
    rewrite load_records_attachments. cbn [push attachments set_attachments app].
    destruct (IH (S k)) as [Hid Hn]. cbv zeta in Hid, Hn.
    cbn [map List.length seq]. rewrite Hid. split; [reflexivity|].
    constructor; [apply or_else_untitled | exact Hn].
Qed.

(** X20. When the imported text holds attachment elements, the import
    makes one attachment for each of them that has both a name element and
    a content element below it, and skips the others; the ids of the
    attachments it makes are generated one after the other, and none of
    their names is empty, an empty name being replaced by [Untitled]. *)
Theorem import_skips_incomplete_records
    (es : nat -> Env) (recover : string -> Xml.node) (text : string) (st : State) :
  let els := Xml.document_querySelectorAll "attachment"
               (Xml.parseFromString recover text) in
  let complete el :=
    match Xml.querySelector "name" el, Xml.querySelector "content" el with
    | Some _, Some _ => true
    | _, _ => false
    end in
  els <> [] ->
  map id (attachments (deserialize es recover text st))
  = map (fun k => newId (es k)) (seq 0 (List.length (filter complete els)))
  /\ Forall (fun a => name a <> EmptyString)
       (attachments (deserialize es recover text st)).
Proof.
  cbv zeta. intros H. unfold deserialize. rewrite onload_state. cbv zeta.
  destruct (Xml.document_querySelectorAll _ _) as [|el els] eqn:E; [contradiction|].
  change (0 <? List.length (el :: els)) with true. cbv iota.
  cbn [attachments set_attachments].
  exact (load_records_fresh es (el :: els) 0).
Qed.

Lemma import_skips_incomplete_records_witness :
  map name (attachments
    (deserialize sample_env Xml.standard_recovery
       "<promptBuilder><attachments><attachment><name>only a name</name></attachment><attachment><name></name><content>kept</content></attachment></attachments></promptBuilder>"
       initialState))
  = ["Untitled"]
  /\ map id (attachments
       (deserialize sample_env Xml.standard_recovery
          "<promptBuilder><attachments><attachment><name>only a name</name></attachment><attachment><name></name><content>kept</content></attachment></attachments></promptBuilder>"
          initialState))
     = [newId (sample_env 0)].
Proof.
  split; [reflexivity|].
  apply (import_skips_incomplete_records sample_env Xml.standard_recovery
    "<promptBuilder><attachments><attachment><name>only a name</name></attachment><attachment><name></name><content>kept</content></attachment></attachments></promptBuilder>"
    initialState).
  vm_compute. discriminate.
Defined.

(** ** Debounce and copy, in general *)

Lemma handle_debounced a rt :
  debouncedOutputMarkdown (handle a rt) = debouncedOutputMarkdown rt.
Proof.
  destruct a; simpl; try reflexivity.
  unfold copyToClipboard. destruct (negb _), granted; reflexivity.
Qed.

Lemma attachments_eqb_eq l1 : forall l2, attachments_eqb l1 l2 = true -> l1 = l2.
Proof.
  induction l1 as [|a l1 IH]; intros [|b l2]; simpl; try discriminate; [reflexivity|].
  intros H. apply andb_true_iff in H as [Hab Hl].
  unfold attachment_eqb in Hab.
  apply andb_true_iff in Hab as [Hab Hc]. apply andb_true_iff in Hab as [Hi Hn].
  apply String.eqb_eq in Hi, Hn, Hc. rewrite (IH _ Hl).
  destruct a, b. simpl in *. congruence.
Qed.

Lemma not_triggered_same_output a rt :
  triggers a rt = false ->
  promptText (doc (handle a rt)) = promptText (doc rt)
  /\ attachments (doc (handle a rt)) = attachments (doc rt).
Proof.
  unfold triggers. intros H.
  apply orb_false_elim in H as [H Ha]. apply orb_false_elim in H as [_ Hp].
  apply negb_false_iff in Ha, Hp.
  apply String.eqb_eq in Hp. apply attachments_eqb_eq in Ha. now split.
Qed.

(** What a stable state shows: the compilation of the document, or, as
    long as nothing has been recomputed, the empty output of the start
    beside a document that is still without prompt and attachments. *)
Lemma reachable_stable_current rt :
  reachable rt ->
  isOutputStable rt = true ->
  debouncedOutputMarkdown rt = compile (promptText (doc rt)) (attachments (doc rt))
  \/ (debouncedOutputMarkdown rt = EmptyString /\ recomputes rt = []
      /\ promptText (doc rt) = EmptyString /\ attachments (doc rt) = []).
Proof.
  induction 1 as [|a rt _ IH|t rt _ IH].
  - intros _. right. repeat split.
  - unfold perform. destruct (triggers a rt) eqn:E; [discriminate|].
    rewrite handle_stable, handle_debounced, handle_recomputes.
    destruct (not_triggered_same_output _ _ E) as [-> ->]. exact IH.
  - unfold advance. destruct (timer rt) as [due|]; [destruct (due <=? t)|];
      simpl; try exact IH.
    intros _. now left.
Qed.

(** X21. The copy command never transfers an outdated output: in every
    state the application reaches in which the output is stable, a granted
    copy puts on the clipboard the compilation of the document as it is at
    that moment, with one exception: before the first recomputation has run
    it puts the empty string there, the document then still having no prompt
    and no attachments. *)
Theorem copy_transfers_current_output (rt : Runtime) :
  reachable rt ->
  isOutputStable rt = true ->
  clipboard (perform (Copy true) rt)
  = Some (compile (promptText (doc rt)) (attachments (doc rt)))
  \/ (clipboard (perform (Copy true) rt) = Some EmptyString
      /\ recomputes rt = []
      /\ promptText (doc rt) = EmptyString /\ attachments (doc rt) = []).
Proof.
  intros Hr Hs. rewrite perform_copy. unfold copyToClipboard. rewrite Hs. simpl.
  destruct (reachable_stable_current rt Hr Hs) as [-> | (-> & H)]; [now left | now right].
Qed.

Lemma copy_transfers_current_output_witness :
  let rt := advance 900 (perform (Edit (AddEmpty (sample_env 0)))
                           (perform (Edit (SetPrompt "Summarize:")) initialRuntime)) in
  clipboard (perform (Copy true) rt)
  = Some (compile "Summarize:" [mkAttachment (newId (sample_env 0)) "Untitled_1" EmptyString]).
Proof.
  intros rt.
  assert (Hr : reachable rt) by (repeat constructor).
  destruct (copy_transfers_current_output rt Hr eq_refl) as [H | (_ & H & _)].
  - exact H.
  - discriminate H.
Defined.

(** X22. In every state the application reaches, the pending
    recomputation, if there is one, is due in the future and at most one
    delay of 500 ahead. *)
Theorem pending_recompute_is_within_delay (rt : Runtime) (due : nat) :
  reachable rt ->
  timer rt = Some due ->
  clock rt < due /\ due <= clock rt + 500.
Proof.
  intros Hr. revert due.
  induction Hr as [|a rt _ IH|t rt _ IH]; intros due.
  - discriminate.
  - unfold perform. destruct (triggers a rt).
    + simpl. rewrite handle_clock. intros [= <-]. unfold delay. lia.
    + rewrite handle_timer, handle_clock. apply IH.
  - unfold advance. destruct (timer rt) as [d|] eqn:E.
    + destruct (Nat.leb_spec d t); simpl; [discriminate|].
      rewrite E. intros [= <-]. specialize (IH d eq_refl). lia.
    + simpl. rewrite E. discriminate.
Qed.

Lemma pending_recompute_is_within_delay_witness :
  let rt := advance 1300 (perform (Edit (SetPrompt "a")) (advance 1000 initialRuntime)) in
  clock rt < 1500 /\ 1500 <= clock rt + 500.
Proof.
  intros rt.
  apply (pending_recompute_is_within_delay rt 1500).
  - repeat constructor.
  - reflexivity.
Defined.

Lemma burst_keeps_one_timer sched : forall rt t,
  timer rt = Some (t + delay) -> clock rt = t ->
  close_together t sched = true -> all_trigger sched rt = true ->
  timer (play sched rt) = Some (last_time t sched + delay)
  /\ clock (play sched rt) = last_time t sched
  /\ recomputes (play sched rt) = recomputes rt.
Proof.
  induction sched as [|[t' a] sched IH]; intros rt t Ht Hc Hclose Hall.
  - cbn. auto.
  - cbn [close_together] in Hclose. cbn [all_trigger] in Hall.
    apply andb_true_iff in Hclose as [Hclose Hrest].
    apply andb_true_iff in Hclose as [Hle Hlt].
    apply Nat.leb_le in Hle. apply Nat.ltb_lt in Hlt.
    apply andb_true_iff in Hall as [Htrig Hall].
    destruct (advance_waiting t' rt _ Ht Hlt) as (_ & Hc' & Hr' & _).
    destruct (perform_triggered _ _ Htrig) as (Ht2 & Hc2 & Hr2 & _).
    rewrite Hc', Hc in Ht2, Hc2. replace (Nat.max t t') with t' in Ht2, Hc2 by lia.
    destruct (IH _ t' Ht2 Hc2 Hrest Hall) as (Ht3 & Hc3 & Hr3).
    cbn [play]. unfold last_time in *. cbn [fold_left fst].
    rewrite Ht3, Hc3, Hr3. repeat split. congruence.
Qed.

(** X23. A burst of edits is compiled once: after an edit at [t0] and any
    number of further edits, all answered by the watcher and each less than
    500 after the one before it, no recomputation runs before 500 have
    passed since the last edit, and exactly one runs then, compiling the
    document as the last edit left it. *)
Theorem debounce_collapses_bursts
    (rt : Runtime) (t0 : nat) (a0 : action) (sched : list (nat * action)) :
  clock rt <= t0 ->
  triggers a0 (advance t0 rt) = true ->
  close_together t0 sched = true ->
  all_trigger sched (perform a0 (advance t0 rt)) = true ->
  let r := play sched (perform a0 (advance t0 rt)) in
  (forall T, T < last_time t0 sched + 500 ->
     recomputes (advance T r) = recomputes (advance t0 rt))
  /\ (forall T, last_time t0 sched + 500 <= T ->
      recomputes (advance T r)
      = recomputes (advance t0 rt)
        ++ [(last_time t0 sched + 500,
             compile (promptText (doc r)) (attachments (doc r)))]).
Proof.
  intros Hclock Htrig Hclose Hall r.
  assert (C0 : clock (advance t0 rt) = t0).
  { unfold advance. simpl.
    destruct (timer rt) as [due|]; [destruct (due <=? t0) eqn:E|]; simpl; try lia.
    apply Nat.leb_le in E. lia. }
  destruct (perform_triggered _ _ Htrig) as (T1 & C1 & R1 & _).
  rewrite C0 in T1, C1.
  destruct (burst_keeps_one_timer sched _ t0 T1 C1 Hclose Hall) as (T2 & C2 & R2).
  subst r. unfold delay in T2. split.
  - intros T HT. destruct (advance_waiting T _ _ T2 HT) as (_ & _ & -> & _).
    now rewrite R2, R1.
  - intros T HT. rewrite (advance_firing T _ _ T2 HT). simpl.
    now rewrite R2, R1.
Qed.

Lemma debounce_collapses_bursts_witness :
  let r := play [(1100, Edit (SetPrompt "ab")); (1500, Edit (SetPrompt "abc"));
                 (1999, Edit (AddEmpty (sample_env 0)))]
             (perform (Edit (SetPrompt "a")) (advance 1000 initialRuntime)) in
  recomputes (advance 2498 r) = []
  /\ recomputes (advance 2499 r)
     = [(2499, compile "abc" [mkAttachment (newId (sample_env 0)) "Untitled_1" EmptyString])].
Proof.
  intros r.
  destruct (debounce_collapses_bursts initialRuntime 1000 (Edit (SetPrompt "a"))
              [(1100, Edit (SetPrompt "ab")); (1500, Edit (SetPrompt "abc"));
               (1999, Edit (AddEmpty (sample_env 0)))]
              ltac:(simpl; lia) eq_refl eq_refl eq_refl) as [Hbefore Hafter].
  split.
  - apply (Hbefore 2498). simpl. lia.
  - apply (Hafter 2499). simpl. lia.
Defined.


